(** * A shallow embedding of homu's merge queue ([homu/main.py])

    The development follows the Python module function by function:
    [PullReqState] and its methods, [sha_cmp], [parse_commands],
    [start_build], [process_queue] and the start-up code of [main].

    Modelling conventions.
    - Python [int] is [Z]; Python [str] is [string], i.e. the code points
      below 256; [None]/[True]/[False] tri-states are [option bool].
    - A [dict] that is only looked up by key is a [gmap]; a [dict] that is
      iterated ([values()]) keeps its insertion order as an association list.
    - The objects the code mutates in place ([PullReqState] instances, the
      one-cell list [buildbot_slots], the sqlite table) are threaded
      explicitly; a [PullReqState] living in [states] is referred to by its
      position in the [values()] of its repository.
    - Calls to GitHub and Buildbot are recorded in a trace of [Effect]s and
      answered by a [Platform] oracle that may depend on that trace.
    - Exceptions are explicit ([outcome]). *)

From Stdlib Require Import ZArith Ascii String Sorted Permutation.
From stdpp Require Import base gmap strings list pretty.

(** ** Strings as Python uses them *)

(** [s[:n]] *)
Definition str_take (n : nat) (s : string) : string := String.substring 0 n s.

(** [s[n:]] *)
Fixpoint str_drop (n : nat) (s : string) : string :=
  match n, s with
  | O, _ => s
  | S n', String _ s' => str_drop n' s'
  | S _, EmptyString => EmptyString
  end.

(** [s.startswith(p)] *)
Fixpoint startswith (s p : string) {struct p} : bool :=
  match p, s with
  | EmptyString, _ => true
  | String a p', String b s' => Ascii.eqb a b && startswith s' p'
  | String _ _, EmptyString => false
  end.

(** [needle in hay] *)
Fixpoint str_in (needle hay : string) : bool :=
  startswith hay needle ||
  match hay with
  | EmptyString => false
  | String _ hay' => str_in needle hay'
  end.

(** [x in l] for a list of strings *)
Definition list_in (x : string) (l : list string) : bool :=
  bool_decide (x ∈ l).

(** Python's [str.isspace] on one code point below 256; this is also the
    class [\s] of [re] on [str] patterns. *)
Definition is_space (c : ascii) : bool :=
  let n := nat_of_ascii c in
  ((9 <=? n)%nat && (n <=? 13)%nat) || ((28 <=? n)%nat && (n <=? 32)%nat)
  || (n =? 133)%nat || (n =? 160)%nat.

(** [re.findall(r'\S+', s)]: the maximal runs of non-space characters. *)
Fixpoint findall_nonspace (s : string) : list string :=
  match s with
  | EmptyString => []
  | String c s' =>
      if is_space c then findall_nonspace s'
      else match s' with
           | EmptyString => [String c EmptyString]
           | String c' _ =>
               if is_space c' then String c EmptyString :: findall_nonspace s'
               else match findall_nonspace s' with
                    | w :: ws => String c w :: ws
                    | [] => [String c EmptyString]
                    end
           end
  end.

(** [s.lstrip()], [s.rstrip()], [s.strip()] *)
Fixpoint lstrip (s : string) : string :=
  match s with
  | EmptyString => EmptyString
  | String c s' => if is_space c then lstrip s' else s
  end.

Fixpoint rstrip (s : string) : string :=
  match s with
  | EmptyString => EmptyString
  | String c s' =>
      match rstrip s' with
      | EmptyString => if is_space c then EmptyString else String c EmptyString
      | r => String c r
      end
  end.

Definition strip (s : string) : string := rstrip (lstrip s).

(** The first occurrence of [needle] in [hay]: the text before it and the
    text after it. *)
Fixpoint split_first (needle hay : string) : option (string * string) :=
  if startswith hay needle then Some (EmptyString, str_drop (String.length needle) hay)
  else match hay with
       | EmptyString => None
       | String c hay' =>
           match split_first needle hay' with
           | Some (b, a) => Some (String c b, a)
           | None => None
           end
       end.

(** [int(s)] on a string without surrounding white space: an optional sign,
    then decimal digits, single underscores allowed between digits.
    [None] stands for [ValueError]. *)
Definition digit_val (c : ascii) : option Z :=
  let n := nat_of_ascii c in
  if ((48 <=? n)%nat && (n <=? 57)%nat) then Some (Z.of_nat (n - 48)) else None.

Fixpoint parse_digits (s : string) (acc : Z) (after_digit : bool) : option Z :=
  match s with
  | EmptyString => if after_digit then Some acc else None
  | String c s' =>
      match digit_val c with
      | Some d => parse_digits s' (10 * acc + d)%Z true
      | None =>
          if Ascii.eqb c "_"%char && after_digit
          then parse_digits s' acc false
          else None
      end
  end.

Definition py_int (s : string) : option Z :=
  match s with
  | String "-"%char s' => Z.opp <$> parse_digits s' 0%Z false
  | String "+"%char s' => parse_digits s' 0%Z false
  | _ => parse_digits s 0%Z false
  end.

(** Lexicographic [<] on lists of integers, as Python compares lists. *)
Fixpoint list_lt (a b : list Z) : bool :=
  match a, b with
  | [], [] => false
  | [], _ :: _ => true
  | _ :: _, [] => false
  | x :: a', y :: b' =>
      if (x <? y)%Z then true
      else if (y <? x)%Z then false
      else list_lt a' b'
  end.

(** ** The data model *)

(** [STATUS_TO_PRIORITY] *)
Definition STATUS_TO_PRIORITY : gmap string Z :=
  list_to_map
    [ ("success", 0%Z); ("pending", 1%Z); ("approved", 2%Z);
      ("", 3%Z); ("error", 4%Z); ("failure", 5%Z) ].

(** One instance of [class PullReqState].  [repo] is the repository handle,
    kept as its name; [issue] tells whether the issue handle that
    [add_comment] fetches lazily is already cached on the object. *)
Record PullReqState := mkPullReqState {
  num : Z;
  priority : Z;
  rollup : bool;
  title : string;
  body : string;
  head_ref : string;
  base_ref : string;
  assignee : string;
  head_sha : string;
  approved_by : string;
  status : string;
  merge_sha : string;
  build_res : gmap string (option bool);
  try_ : bool;
  mergeable : option bool;
  repo : string;
  issue : bool
}.

(** One row of the table [state (repo, num, status NOT NULL, merge_sha)];
    [None] is SQL [NULL].  The table is the list of its rows in rowid
    order. *)
Record Row := mkRow {
  row_repo : string;
  row_num : Z;
  row_status : string;
  row_merge_sha : option string
}.

(** One entry of the per-run configuration ([cfg['repo']]). *)
Record RepoCfg := mkRepoCfg {
  owner : string;
  repo_name : string;
  reviewers : list string;
  master_branch : string;
  tmp_branch : string;
  buildbot_branch : string;
  buildbot_try_branch : string;
  builders : list string;
  try_builders : list string;
  buildbot_url : string;
  buildbot_username : string;
  buildbot_password : string;
  travis_token : option string
}.

(** The calls the code makes to the outside world, in the order made. *)
Inductive Effect :=
  | GetIssue (r : string) (n : Z)
  | CreateComment (r : string) (n : Z) (text : string)
  | CreateStatus (r sha state url desc context : string)
  | SetRef (r ref sha : string)
  | CreateRef (r ref sha : string)
  | Merge (r base head msg : string)
  | BuildbotLogin (url user passwd : string)
  | BuildbotStop (url : string) (selected : list string) (comments : string)
  | BuildbotLogout (url : string)
  | LogInfo (msg : string).

Inductive MergeResult :=
  | Merged (sha : string)
  | GitHubError (code : Z).

(** A review or issue comment as GitHub lists it. *)
Record Comment := mkComment {
  c_body : string;
  c_user : string;
  c_original_commit_id : string
}.

(** An open pull request as [repo.iter_pulls(state='open')] yields it;
    [p_statuses] are the (context, state) pairs of
    [github_iter_statuses(repo, pull.head.sha)]. *)
Record Pull := mkPull {
  p_number : Z;
  p_head_sha : string;
  p_head_owner : string;
  p_head_ref : string;
  p_base_ref : string;
  p_assignee : option string;
  p_title : string;
  p_body : string;
  p_comments : list Comment;
  p_issue_comments : list Comment;
  p_statuses : list (string * string)
}.

(** What GitHub and Buildbot answer.  Every answer may depend on the trace
    of calls made so far. *)
Record Platform := mkPlatform {
  pull_request_head_sha : list Effect -> string -> Z -> string;
  ref_sha : list Effect -> string -> string -> string;
  set_ref_ok : list Effect -> string -> string -> string -> bool;
  merge : list Effect -> string -> string -> string -> string -> MergeResult;
  stopselected_text : list Effect -> RepoCfg -> string;
  iter_pulls : string -> list Pull
}.

(** The objects shared by all functions: [buildbot_slots[0]], the table
    behind the cursor [db], and the trace of outside calls. *)
Record Sys := mkSys {
  slot : string;
  db : list Row;
  out : list Effect
}.

Inductive exn :=
  | AssertionError
  | KeyError
  | GitHubErr (code : Z).

Inductive outcome :=
  | Ret (b : bool)
  | Raised (e : exn).

Definition emit (e : Effect) (g : Sys) : Sys :=
  {| slot := slot g; db := db g; out := out g ++ [e] |}.

Definition with_db (d : list Row) (g : Sys) : Sys :=
  {| slot := slot g; db := d; out := out g |}.

Definition with_slot (s : string) (g : Sys) : Sys :=
  {| slot := s; db := db g; out := out g |}.

(** ** The table *)

Definition row_is (r : string) (n : Z) (x : Row) : bool :=
  bool_decide (row_repo x = r) && bool_decide (row_num x = n).

(** [INSERT OR REPLACE INTO state (repo, num, status) VALUES (?, ?, ?)]:
    the conflicting row is deleted and a new row is appended; its
    [merge_sha] is [NULL]. *)
Definition db_replace_status (r : string) (n : Z) (s : string) (d : list Row) : list Row :=
  List.filter (fun x => negb (row_is r n x)) d ++ [mkRow r n s None].

(** [INSERT INTO state (repo, num, status) VALUES (?, ?, ?)], issued only
    after the [SELECT] for the same key found no row. *)
Definition db_insert_status (r : string) (n : Z) (s : string) (d : list Row) : list Row :=
  d ++ [mkRow r n s None].

(** [UPDATE state SET merge_sha = ? WHERE repo = ? AND num = ?] *)
Definition db_update_merge_sha (m r : string) (n : Z) (d : list Row) : list Row :=
  List.map (fun x => if row_is r n x
                     then mkRow (row_repo x) (row_num x) (row_status x) (Some m)
                     else x) d.

(** [DELETE FROM state WHERE repo = ? AND num = ?] *)
Definition db_delete (r : string) (n : Z) (d : list Row) : list Row :=
  List.filter (fun x => negb (row_is r n x)) d.

(** [SELECT status FROM state WHERE repo = ? AND num = ?] and [fetchone()] *)
Definition db_select_status (r : string) (n : Z) (d : list Row) : option string :=
  row_status <$> List.find (row_is r n) d.

(** ** [class PullReqState] *)

Definition set_status (s : string) (st : PullReqState) (g : Sys) : PullReqState * Sys :=
  (mkPullReqState (num st) (priority st) (rollup st) (title st) (body st)
     (head_ref st) (base_ref st) (assignee st) (head_sha st) (approved_by st)
     s (merge_sha st) (build_res st) (try_ st) (mergeable st) (repo st) (issue st),
   with_db (db_replace_status (repo st) (num st) s (db g)) g).

Definition head_advanced (new_sha : string) (use_db : bool)
    (st : PullReqState) (g : Sys) : PullReqState * Sys :=
  let st1 :=
    mkPullReqState (num st) (priority st) (rollup st) (title st) (body st)
      (head_ref st) (base_ref st) (assignee st) new_sha ""
      "" "" ∅ false None (repo st) (issue st) in
  if use_db then set_status "" st1 g else (st1, g).

(** [PullReqState(num, head_sha, status, repo, db)]: the class attributes,
    then [head_advanced('', use_db=False)], then the constructor's
    assignments. *)
Definition PullReqState_init (n : Z) (sha st r : string) (g : Sys) : PullReqState * Sys :=
  let blank :=
    mkPullReqState 0 0 false "" "" "" "" "" "" "" "" "" ∅ false None "" false in
  let '(s1, g1) := head_advanced "" false blank g in
  (mkPullReqState n (priority s1) (rollup s1) (title s1) (body s1)
     (head_ref s1) (base_ref s1) (assignee s1) sha (approved_by s1)
     st (merge_sha s1) (build_res s1) (try_ s1) (mergeable s1) r (issue s1), g1).

Definition truthy (s : string) : bool := negb (String.eqb s "").

Definition get_status (st : PullReqState) : string :=
  if String.eqb (status st) "" && truthy (approved_by st)
     && negb (bool_decide (mergeable st = Some false))
  then "approved" else status st.

Definition sort_key (st : PullReqState) : list Z :=
  [ default (-1)%Z (STATUS_TO_PRIORITY !! get_status st);
    if bool_decide (mergeable st = Some false) then 1%Z else 0%Z;
    if truthy (approved_by st) then 0%Z else 1%Z;
    if rollup st then 1%Z else 0%Z;
    (- priority st)%Z;
    num st ].

(** [__lt__] *)
Definition lt (a b : PullReqState) : bool := list_lt (sort_key a) (sort_key b).

Definition add_comment (text : string) (st : PullReqState) (g : Sys) : PullReqState * Sys :=
  let g1 := if issue st then g else emit (GetIssue (repo st) (num st)) g in
  (mkPullReqState (num st) (priority st) (rollup st) (title st) (body st)
     (head_ref st) (base_ref st) (assignee st) (head_sha st) (approved_by st)
     (status st) (merge_sha st) (build_res st) (try_ st) (mergeable st) (repo st) true,
   emit (CreateComment (repo st) (num st) text) g1).

(** ** [sha_cmp] *)

Definition sha_cmp (short full : string) : bool :=
  (4 <=? String.length short)%nat
  && String.eqb short (str_take (String.length short) full).

(** Attribute assignments on a [PullReqState]. *)
Definition set_approved_by (v : string) (st : PullReqState) : PullReqState :=
  mkPullReqState (num st) (priority st) (rollup st) (title st) (body st)
    (head_ref st) (base_ref st) (assignee st) (head_sha st) v
    (status st) (merge_sha st) (build_res st) (try_ st) (mergeable st) (repo st) (issue st).

Definition set_priority (v : Z) (st : PullReqState) : PullReqState :=
  mkPullReqState (num st) v (rollup st) (title st) (body st)
    (head_ref st) (base_ref st) (assignee st) (head_sha st) (approved_by st)
    (status st) (merge_sha st) (build_res st) (try_ st) (mergeable st) (repo st) (issue st).

Definition set_rollup (v : bool) (st : PullReqState) : PullReqState :=
  mkPullReqState (num st) (priority st) v (title st) (body st)
    (head_ref st) (base_ref st) (assignee st) (head_sha st) (approved_by st)
    (status st) (merge_sha st) (build_res st) (try_ st) (mergeable st) (repo st) (issue st).

Definition set_try (v : bool) (st : PullReqState) : PullReqState :=
  mkPullReqState (num st) (priority st) (rollup st) (title st) (body st)
    (head_ref st) (base_ref st) (assignee st) (head_sha st) (approved_by st)
    (status st) (merge_sha st) (build_res st) v (mergeable st) (repo st) (issue st).

Definition set_raw_status (v : string) (st : PullReqState) : PullReqState :=
  mkPullReqState (num st) (priority st) (rollup st) (title st) (body st)
    (head_ref st) (base_ref st) (assignee st) (head_sha st) (approved_by st)
    v (merge_sha st) (build_res st) (try_ st) (mergeable st) (repo st) (issue st).

Definition set_build (m : string) (b : gmap string (option bool))
    (st : PullReqState) : PullReqState :=
  mkPullReqState (num st) (priority st) (rollup st) (title st) (body st)
    (head_ref st) (base_ref st) (assignee st) (head_sha st) (approved_by st)
    (status st) m b (try_ st) (mergeable st) (repo st) (issue st).

(** [{x: None for x in builders}] *)
Definition pending_results (bs : list string) : gmap string (option bool) :=
  list_to_map ((fun x => (x, @None bool)) <$> bs).

(** ** [parse_commands] *)

(** The comment posted when an approval names no matching commit. *)
Definition bad_sha_comment (sha head : string) : string :=
  let msg := if truthy sha
             then "`" +:+ sha +:+ "` is not a valid commit SHA."
             else "No commit SHA found." in
  ":scream_cat: " +:+ msg +:+ " Please try again with `" +:+ str_take 7 head +:+ "`.".

Definition error_div_open : string :=
  "<div class=" +:+ String "034"%char "error" +:+ String "034"%char ">".

(** What [force] extracts from the text Buildbot answers. *)
Definition buildbot_error (text : string) : string :=
  if str_in "authzfail" text then "Authorization failed"
  else match split_first error_div_open text with
       | Some (_, rest) =>
           match split_first "</div>" rest with
           | Some (inner, _) => strip inner
           | None => ""
           end
       | None => ""
       end.

(** The branch [word == 'force' and realtime]. *)
Definition force_build (gh : Platform) (cfg : RepoCfg)
    (st : PullReqState) (g : Sys) : PullReqState * Sys :=
  let g1 := emit (BuildbotLogin (buildbot_url cfg +:+ "/login")
                    (buildbot_username cfg) (buildbot_password cfg)) g in
  let text := stopselected_text gh (out g1) cfg in
  let g2 := emit (BuildbotStop (buildbot_url cfg +:+ "/builders/_selected/stopselected")
                    (builders cfg) "Interrupted by Homu") g1 in
  let g3 := emit (BuildbotLogout (buildbot_url cfg +:+ "/logout")) g2 in
  let err := buildbot_error text in
  if truthy err
  then add_comment (":bomb: Buildbot returned an error: `" +:+ err +:+ "`") st g3
  else (st, g3).

(** One iteration of [for i, word in enumerate(words)].  [next] is
    [words[i+1]] when [i+1 < len(words)].  The result carries the local
    variable [sha] and the flag [found]. *)
Definition command (gh : Platform) (username : string) (cfg : RepoCfg)
    (realtime : bool) (word : string) (next : option string)
    (sha : string) (st : PullReqState) (g : Sys)
    : string * PullReqState * Sys * bool :=
  if String.eqb word "r+" || startswith word "r=" then
    let sha1 := match next with
                | Some w => if negb (truthy sha) then w else sha
                | None => sha
                end in
    if sha_cmp sha1 (head_sha st) then
      (sha1,
       set_approved_by (if startswith word "r=" then str_drop 2 word else username) st,
       g, true)
    else if realtime then
      let '(st1, g1) := add_comment (bad_sha_comment sha1 (head_sha st)) st g in
      (sha1, st1, g1, true)
    else (sha1, st, g, true)
  else if String.eqb word "r-" then
    (sha, set_approved_by "" st, g, true)
  else if startswith word "p=" then
    match py_int (str_drop 2 word) with
    | Some v => (sha, set_priority v st, g, true)
    | None => (sha, st, g, true)
    end
  else if String.eqb word "retry" && realtime then
    let '(st1, g1) := set_status "" st g in (sha, st1, g1, true)
  else if list_in word ["try"; "try-"] && realtime then
    (sha, set_build "" ∅ (set_try (String.eqb word "try") st), g, true)
  else if list_in word ["rollup"; "rollup-"] then
    (sha, set_rollup (String.eqb word "rollup") st, g, true)
  else if String.eqb word "force" && realtime then
    let '(st1, g1) := force_build gh cfg st g in (sha, st1, g1, true)
  else (sha, st, g, false).

Fixpoint commands (gh : Platform) (username : string) (cfg : RepoCfg)
    (realtime : bool) (words : list string) (sha : string)
    (st : PullReqState) (g : Sys) (state_changed : bool)
    : bool * PullReqState * Sys :=
  match words with
  | [] => (state_changed, st, g)
  | word :: rest =>
      let '(sha1, st1, g1, found) :=
        command gh username cfg realtime word (head rest) sha st g in
      commands gh username cfg realtime rest sha1 st1 g1 (state_changed || found)
  end.

Definition parse_commands (gh : Platform) (body username : string) (cfg : RepoCfg)
    (st : PullReqState) (my_username : string) (g : Sys)
    (realtime : bool) (sha : string) : bool * PullReqState * Sys :=
  if negb (list_in username (reviewers cfg)) then (false, st, g)
  else if negb (str_in ("@" +:+ my_username) body) then (false, st, g)
  else commands gh username cfg realtime (findall_nonspace body) sha st g false.

(** ** [start_build] *)

Definition merge_message (st : PullReqState) : string :=
  "Auto merge of #" +:+ pretty (num st) +:+ " - " +:+ head_ref st +:+ ", r="
  +:+ (if try_ st then "<try>" else approved_by st)
  +:+ String "010"%char (String "010"%char (body st)).

Definition build_description (st : PullReqState) : string :=
  (if try_ st then "Trying" else "Testing") +:+ " commit "
  +:+ str_take 7 (head_sha st) +:+ " with merge " +:+ str_take 7 (merge_sha st) +:+ "...".

Definition start_build (gh : Platform) (repo_cfgs : gmap string RepoCfg)
    (r : string) (st : PullReqState) (g : Sys)
    : PullReqState * Sys * outcome :=
  if truthy (slot g) then (st, g, Ret true)
  else if negb (String.eqb (head_sha st) (pull_request_head_sha gh (out g) r (num st)))
  then (st, g, Raised AssertionError)
  else match repo_cfgs !! r with
  | None => (st, g, Raised KeyError)
  | Some cfg =>
    let master_sha := ref_sha gh (out g) r ("heads/" +:+ master_branch cfg) in
    let g1 :=
      if set_ref_ok gh (out g) r ("heads/" +:+ tmp_branch cfg) master_sha
      then emit (SetRef r ("heads/" +:+ tmp_branch cfg) master_sha) g
      else emit (CreateRef r ("refs/heads/" +:+ tmp_branch cfg) master_sha)
             (emit (SetRef r ("heads/" +:+ tmp_branch cfg) master_sha) g) in
    let merge_msg := merge_message st in
    let res := merge gh (out g1) r (tmp_branch cfg) (head_sha st) merge_msg in
    let g2 := emit (Merge r (tmp_branch cfg) (head_sha st) merge_msg) g1 in
    match res with
    | GitHubError code =>
        if negb (code =? 409)%Z then (st, g2, Raised (GitHubErr code))
        else
          let desc := "Merge conflict" in
          let g3 := emit (CreateStatus r (head_sha st) "error" "" desc "homu") g2 in
          let '(st4, g4) := set_status "error" st g3 in
          let '(st5, g5) := add_comment (":umbrella: " +:+ desc) st4 g4 in
          (st5, g5, Ret false)
    | Merged sha =>
        let '(branch, blds) :=
          match travis_token cfg with
          | Some _ => (buildbot_branch cfg, ["travis"])
          | None =>
              (if try_ st then buildbot_try_branch cfg else buildbot_branch cfg,
               if try_ st then try_builders cfg else builders cfg)
          end in
        if negb (set_ref_ok gh (out g2) r ("heads/" +:+ branch) sha)
        then (st, emit (SetRef r ("heads/" +:+ branch) sha) g2, Raised (GitHubErr 0))
        else
          let g3 := emit (SetRef r ("heads/" +:+ branch) sha) g2 in
          let st3 := set_build sha (pending_results blds) st in
          let g4 := match travis_token cfg with
                    | Some _ => g3
                    | None => with_slot (merge_sha st3) g3
                    end in
          let g5 := emit (LogInfo ("Starting build of #" +:+ pretty (num st3)
                                   +:+ " on " +:+ branch +:+ ": " +:+ merge_sha st3)) g4 in
          let desc := build_description st3 in
          let g6 := emit (CreateStatus r (head_sha st3) "pending" "" desc "homu") g5 in
          let '(st7, g7) := set_status "pending" st3 g6 in
          let '(st8, g8) := add_comment (":hourglass: " +:+ desc) st7 g7 in
          let g9 := if try_ st8 then g8
                    else with_db (db_update_merge_sha (merge_sha st8) (repo st8) (num st8) (db g8)) g8 in
          (st8, g9, Ret true)
    end
  end.

(** ** [process_queue] *)

(** [sorted(l)]: Python's sort is stable and only uses [<]; for the total
    preorder that [sort_key] induces, its result is the stable insertion
    sort below. *)
Fixpoint insort {A} (ltb : A -> A -> bool) (x : A) (l : list A) : list A :=
  match l with
  | [] => [x]
  | y :: l' => if ltb x y then x :: y :: l' else y :: insort ltb x l'
  end.

Definition sorted {A} (ltb : A -> A -> bool) (l : list A) : list A :=
  foldl (fun acc x => insort ltb x acc) [] l.

(** [states[repo.name]]: PR number to object, in insertion order. *)
Abbreviation pulls := (list (Z * PullReqState)).

(** [sorted(states[repo.name].values())] as the list of references: each
    object is named by its position in [values()]. *)
Definition repo_states (l : pulls) : list nat :=
  fst <$> sorted (fun a b => lt (snd a) (snd b)) (imap (fun i p => (i, snd p)) l).

Definition pr_at (l : pulls) (i : nat) : option PullReqState := snd <$> l !! i.

Definition pr_put (l : pulls) (i : nat) (st : PullReqState) : pulls :=
  alter (fun p => (fst p, st)) i l.

(** How a loop body ends: fall through to the next iteration or statement,
    [return] from [process_queue], or an exception. *)
Inductive flow :=
  | Next
  | Return
  | Throw (e : exn).

Definition flow_of (o : outcome) : flow :=
  match o with
  | Ret true => Return
  | Ret false => Next
  | Raised e => Throw e
  end.

(** The first [for state in repo_states] loop; [break] ends it with [Next]. *)
Fixpoint gated_pass (gh : Platform) (repo_cfgs : gmap string RepoCfg) (r : string)
    (refs : list nat) (l : pulls) (g : Sys) : pulls * Sys * flow :=
  match refs with
  | [] => (l, g, Next)
  | i :: rest =>
      match pr_at l i with
      | None => gated_pass gh repo_cfgs r rest l g
      | Some st =>
          if String.eqb (status st) "pending" && negb (try_ st) then (l, g, Next)
          else if String.eqb (status st) "" && truthy (approved_by st) then
            let '(st1, g1, o) := start_build gh repo_cfgs r st g in
            match flow_of o with
            | Next => gated_pass gh repo_cfgs r rest (pr_put l i st1) g1
            | f => (pr_put l i st1, g1, f)
            end
          else if String.eqb (status st) "success" && try_ st && truthy (approved_by st) then
            let '(st1, g1, o) := start_build gh repo_cfgs r (set_try false st) g in
            match flow_of o with
            | Next => gated_pass gh repo_cfgs r rest (pr_put l i st1) g1
            | f => (pr_put l i st1, g1, f)
            end
          else gated_pass gh repo_cfgs r rest l g
      end
  end.

(** The second [for state in repo_states] loop. *)
Fixpoint try_pass (gh : Platform) (repo_cfgs : gmap string RepoCfg) (r : string)
    (refs : list nat) (l : pulls) (g : Sys) : pulls * Sys * flow :=
  match refs with
  | [] => (l, g, Next)
  | i :: rest =>
      match pr_at l i with
      | None => try_pass gh repo_cfgs r rest l g
      | Some st =>
          if String.eqb (status st) "" && try_ st then
            let '(st1, g1, o) := start_build gh repo_cfgs r st g in
            match flow_of o with
            | Next => try_pass gh repo_cfgs r rest (pr_put l i st1) g1
            | f => (pr_put l i st1, g1, f)
            end
          else try_pass gh repo_cfgs r rest l g
      end
  end.

(** The body of [for repo in repos.values()] for one repository. *)
Definition process_repo (gh : Platform) (repo_cfgs : gmap string RepoCfg) (r : string)
    (l : pulls) (g : Sys) : pulls * Sys * flow :=
  let refs := repo_states l in
  let '(l1, g1, f1) := gated_pass gh repo_cfgs r refs l g in
  match f1 with
  | Next => try_pass gh repo_cfgs r refs l1 g1
  | f => (l1, g1, f)
  end.

(** [repos] is the list of [repo.name] over [repos.values()].  The result
    is [None] when the function returns and [Some e] when [e] escapes. *)
Fixpoint process_queue (gh : Platform) (repo_cfgs : gmap string RepoCfg)
    (repos : list string) (states : gmap string pulls) (g : Sys)
    : gmap string pulls * Sys * option exn :=
  match repos with
  | [] => (states, g, None)
  | r :: rest =>
      match states !! r with
      | None => (states, g, Some KeyError)
      | Some l =>
          let '(l1, g1, f) := process_repo gh repo_cfgs r l g in
          match f with
          | Next => process_queue gh repo_cfgs rest (<[r := l1]> states) g1
          | Return => (<[r := l1]> states, g1, None)
          | Throw e => (<[r := l1]> states, g1, Some e)
          end
      end
  end.

(** ** The start-up code of [main] *)

(** [d[k]] and [d[k] = v] on an insertion-ordered [dict]. *)
Definition dict_get (k : Z) (l : pulls) : option PullReqState :=
  snd <$> List.find (fun p => bool_decide (fst p = k)) l.

Fixpoint dict_set (k : Z) (v : PullReqState) (l : pulls) : pulls :=
  match l with
  | [] => [(k, v)]
  | p :: l' => if bool_decide (fst p = k) then (k, v) :: l' else p :: dict_set k v l'
  end.

(** The status GitHub shows for a head commit under the context [homu]. *)
Fixpoint homu_status (infos : list (string * string)) : string :=
  match infos with
  | [] => ""
  | (context, state) :: rest =>
      if String.eqb context "homu" then state else homu_status rest
  end.

Definition set_info (p : Pull) (st : PullReqState) : PullReqState :=
  mkPullReqState (num st) (priority st) (rollup st) (p_title p) (p_body p)
    (p_head_owner p +:+ ":" +:+ p_head_ref p) (p_base_ref p)
    (default "" (p_assignee p)) (head_sha st) (approved_by st)
    (status st) (merge_sha st) (build_res st) (try_ st) (mergeable st) (repo st) (issue st).

(** Replaying comments ([realtime] is left at its default [False]). *)
Definition replay_review (gh : Platform) (cfg : RepoCfg) (my_username : string)
    (p : Pull) (acc : PullReqState * Sys) (c : Comment) : PullReqState * Sys :=
  if String.eqb (c_original_commit_id c) (p_head_sha p) then
    let '(_, st, g) := parse_commands gh (c_body c) (c_user c) cfg (fst acc)
                         my_username (snd acc) false (c_original_commit_id c) in
    (st, g)
  else acc.

Definition replay_issue (gh : Platform) (cfg : RepoCfg) (my_username : string)
    (acc : PullReqState * Sys) (c : Comment) : PullReqState * Sys :=
  let '(_, st, g) := parse_commands gh (c_body c) (c_user c) cfg (fst acc)
                       my_username (snd acc) false "" in
  (st, g).

(** The body of [for pull in repo.iter_pulls(state='open')]. *)
Definition load_pull (gh : Platform) (cfg : RepoCfg) (my_username : string)
    (r : string) (acc : pulls * Sys) (p : Pull) : pulls * Sys :=
  let '(l, g) := acc in
  let '(st0, g0) :=
    match db_select_status r (p_number p) (db g) with
    | Some s => (s, g)
    | None =>
        let s := homu_status (p_statuses p) in
        (s, with_db (db_insert_status r (p_number p) s (db g)) g)
    end in
  let '(st1, g1) := PullReqState_init (p_number p) (p_head_sha p) st0 r g0 in
  let st2 := set_info p st1 in
  let '(st3, g3) := foldl (replay_review gh cfg my_username p) (st2, g1) (p_comments p) in
  let '(st4, g4) := foldl (replay_issue gh cfg my_username) (st3, g3) (p_issue_comments p) in
  (dict_set (p_number p) st4 l, g4).

(** What [main] has built when its threads start. *)
Record Boot := mkBoot {
  b_states : gmap string pulls;
  b_repos : list string;
  b_repo_cfgs : gmap string RepoCfg;
  b_sys : Sys
}.

(** The body of [for repo_cfg in cfg['repo']]; [repo.name] is the
    configured repository name. *)
Definition load_repo (gh : Platform) (my_username : string)
    (b : Boot) (cfg : RepoCfg) : Boot :=
  let r := repo_name cfg in
  let '(l, g) := foldl (load_pull gh cfg my_username r) ([], b_sys b) (iter_pulls gh r) in
  {| b_states := <[r := l]> (b_states b);
     b_repos := if list_in r (b_repos b) then b_repos b else b_repos b ++ [r];
     b_repo_cfgs := <[r := cfg]> (b_repo_cfgs b);
     b_sys := g |}.

(** The body of [for repo_name, num, merge_sha in db.fetchall()]. *)
Definition recover_row (repo_cfgs : gmap string RepoCfg)
    (acc : gmap string pulls * Sys * option exn) (x : Row)
    : gmap string pulls * Sys * option exn :=
  match acc with
  | (states, g, Some e) => (states, g, Some e)
  | (states, g, None) =>
      match states !! row_repo x ≫= (fun l => (fun st => (l, st)) <$> dict_get (row_num x) l) with
      | None => (states, with_db (db_delete (row_repo x) (row_num x) (db g)) g, None)
      | Some (l, st) =>
          if truthy (default "" (row_merge_sha x)) then
            match repo_cfgs !! row_repo x with
            | None => (states, g, Some KeyError)
            | Some cfg =>
                let blds := match travis_token cfg with
                            | Some _ => ["travis"]
                            | None => builders cfg
                            end in
                let st1 := set_build (default "" (row_merge_sha x)) (pending_results blds) st in
                (<[row_repo x := dict_set (row_num x) st1 l]> states, g, None)
            end
          else if String.eqb (status st) "pending" then
            (<[row_repo x := dict_set (row_num x) (set_raw_status "" st) l]> states, g, None)
          else (states, g, None)
      end
  end.

(** [SELECT repo, num, merge_sha FROM state] and the loop over
    [db.fetchall()]. *)
Definition recover (repo_cfgs : gmap string RepoCfg) (states : gmap string pulls)
    (g : Sys) : gmap string pulls * Sys * option exn :=
  foldl (recover_row repo_cfgs) (states, g, None) (db g).

(** [main] from [states = {}] to the end of the loop over [cfg['repo']]:
    [cfg_repo] is [cfg['repo']], [d] the table found in [main.db]. *)
Definition load_all (gh : Platform) (my_username : string)
    (cfg_repo : list RepoCfg) (d : list Row) : Boot :=
  let g0 := {| slot := ""; db := d; out := [LogInfo "Retrieving pull requests..."] |} in
  foldl (load_repo gh my_username) (mkBoot ∅ [] ∅ g0) cfg_repo.

(** [main] from [states = {}] to [logger.info('Done!')]. *)
Definition main_startup (gh : Platform) (my_username : string)
    (cfg_repo : list RepoCfg) (d : list Row) : Boot * option exn :=
  let b := load_all gh my_username cfg_repo d in
  let '(states, g, e) := recover (b_repo_cfgs b) (b_states b) (b_sys b) in
  (mkBoot states (b_repos b) (b_repo_cfgs b)
     (match e with None => emit (LogInfo "Done!") g | Some _ => g end), e).

(** ** Vocabulary of the specification *)

(** The status buckets as the specification lists them. *)
Definition status_bucket (s : string) : Z :=
  if String.eqb s "success" then 0
  else if String.eqb s "pending" then 1
  else if String.eqb s "approved" then 2
  else if String.eqb s "" then 3
  else if String.eqb s "error" then 4
  else if String.eqb s "failure" then 5
  else (-1).

(** The PR fields a comment can change. *)
Definition pr_fields (st : PullReqState)
    : string * Z * bool * bool * string * string * gmap string (option bool) :=
  (approved_by st, priority st, rollup st, try_ st, status st, merge_sha st, build_res st).

(** The tokens [parse_commands] treats as commands: the conditions of its
    [if]/[elif] chain. *)
Definition recognized (realtime : bool) (word : string) : bool :=
  String.eqb word "r+" || startswith word "r=" || String.eqb word "r-"
  || startswith word "p=" || list_in word ["rollup"; "rollup-"]
  || (realtime && list_in word ["retry"; "try"; "try-"; "force"]).

(** A gated build in flight. *)
Definition gated_pending (st : PullReqState) : bool :=
  String.eqb (status st) "pending" && negb (try_ st).

(** Lexicographic order on keys: the first component where they differ
    decides. *)
Definition lex_less (a b : list Z) : Prop :=
  exists p x y ta tb, a = p ++ x :: ta /\ b = p ++ y :: tb /\ (x < y)%Z.

(** [x] may stand before [y] in a sorted list: [y < x] does not hold. *)
Definition key_le {A} (ltb : A -> A -> bool) (x y : A) : Prop := ltb y x = false.

(** Two runs of a command from the states [a] and [a'] end in [b] and [b']:
    on the field [f] either both runs wrote the same value or neither
    wrote. *)
Definition sync {X} (f : PullReqState -> X) (a a' b b' : PullReqState) : Prop :=
  f b = f b' \/ (f b = f a /\ f b' = f a').

Definition syncs (a a' b b' : PullReqState) : Prop :=
  sync approved_by a a' b b' /\ sync priority a a' b b' /\ sync rollup a a' b b'
  /\ sync try_ a a' b b' /\ sync status a a' b b' /\ sync merge_sha a a' b b'
  /\ sync build_res a a' b b'.

(** The attributes no comment changes. *)
Definition pr_identity (st : PullReqState)
    : Z * string * string * string * string * string * string * option bool * string :=
  (num st, title st, body st, head_ref st, base_ref st, assignee st, head_sha st,
   mergeable st, repo st).

(** The key of a row, [UNIQUE (repo, num)]. *)
Definition row_key (x : Row) : string * Z := (row_repo x, row_num x).

(** [states[r][n]], when both keys are present. *)
Definition pr_of (states : gmap string pulls) (r : string) (n : Z) : option PullReqState :=
  states !! r ≫= dict_get n.

(** The builders whose results a gated build of the repository awaits. *)
Definition gated_builders (cfg : RepoCfg) : list string :=
  match travis_token cfg with
  | Some _ => ["travis"]
  | None => builders cfg
  end.

(** What the recovery loop makes of the PR that the row [x] belongs to. *)
Definition recovered (repo_cfgs : gmap string RepoCfg) (x : Row)
    (st : PullReqState) : PullReqState :=
  if truthy (default "" (row_merge_sha x)) then
    match repo_cfgs !! row_repo x with
    | Some cfg =>
        set_build (default "" (row_merge_sha x)) (pending_results (gated_builders cfg)) st
    | None => st
    end
  else if String.eqb (status st) "pending" then set_raw_status "" st
  else st.



(** ** Concrete configurations and pull requests used in examples *)

Definition demo_cfg (r : string) (token : option string) : RepoCfg :=
  {| owner := "rust-lang"; repo_name := r; reviewers := ["bob"; "alice"];
     master_branch := "master"; tmp_branch := "tmp";
     buildbot_branch := "auto"; buildbot_try_branch := "try";
     builders := ["linux"; "mac"]; try_builders := ["linux"];
     buildbot_url := "http://bb"; buildbot_username := "homu";
     buildbot_password := "secret"; travis_token := token |}.

(** Buildbot as the CI back-end, and Travis as the CI back-end. *)
Definition buildbot_cfgs : gmap string RepoCfg :=
  {[ "rust" := demo_cfg "rust" None; "cargo" := demo_cfg "cargo" None ]}.

Definition travis_cfgs : gmap string RepoCfg :=
  {[ "rust" := demo_cfg "rust" (Some "token");
     "cargo" := demo_cfg "cargo" (Some "token") ]}.

(** PR [n] has the head commit [demo_head n]; merging a head yields the
    commit named after it. *)
Definition demo_head (n : Z) : string :=
  if (n =? 1)%Z then "aaaa1111" else if (n =? 2)%Z then "bbbb2222" else "cccc3333".

Definition demo_pull (n : Z) (comments : list Comment) : Pull :=
  {| p_number := n; p_head_sha := demo_head n; p_head_owner := "carol";
     p_head_ref := "fix"; p_base_ref := "master"; p_assignee := None;
     p_title := "Fix"; p_body := "Fixes it"; p_comments := [];
     p_issue_comments := comments; p_statuses := [] |}.

Definition demo_platform : Platform :=
  {| pull_request_head_sha := fun _ _ n => demo_head n;
     ref_sha := fun _ _ _ => "00000000";
     set_ref_ok := fun _ _ _ _ => true;
     merge := fun _ _ _ head _ => Merged ("merge-" +:+ head);
     stopselected_text := fun _ _ => "";
     iter_pulls := fun r =>
       if String.eqb r "rust"
       then [demo_pull 1 []; demo_pull 2 [mkComment "@homu r+ bbbb" "bob" ""]]
       else [] |}.

Definition demo_sys : Sys := {| slot := ""; db := []; out := [] |}.

Definition demo_pr (r : string) (n : Z) : PullReqState :=
  fst (PullReqState_init n (demo_head n) "" r demo_sys).

Definition demo_approved (r : string) (n : Z) : PullReqState :=
  set_approved_by "bob" (demo_pr r n).

(** Two repositories, each with one approved pull request. *)
Definition two_repos : gmap string pulls :=
  {[ "rust" := [(1%Z, demo_approved "rust" 1)];
     "cargo" := [(2%Z, demo_approved "cargo" 2)] ]}.


(** ** Events *)

(** Modelled from the spec: the event intake ([server.py] is not among the
    sources).  A comment on a PR runs [parse_commands] with
    [realtime=True], a push runs [head_advanced], and a scheduler tick is
    one call of [process_queue]; events that match no PR are ignored.  The
    handler of CI results is not modelled. *)
Inductive Event :=
  | CommentAdded (r : string) (n : Z) (body username : string)
  | HeadUpdated (r : string) (n : Z) (new_sha : string)
  | Tick.

Record World := mkWorld {
  w_states : gmap string pulls;
  w_sys : Sys
}.

Definition on_pr (r : string) (n : Z)
    (f : PullReqState -> Sys -> PullReqState * Sys) (w : World) : World :=
  match w_states w !! r with
  | Some l =>
      match dict_get n l with
      | Some st =>
          let '(st', g') := f st (w_sys w) in
          {| w_states := <[r := dict_set n st' l]> (w_states w); w_sys := g' |}
      | None => w
      end
  | None => w
  end.

Definition handle (gh : Platform) (repo_cfgs : gmap string RepoCfg)
    (repos : list string) (my_username : string) (w : World) (ev : Event) : World :=
  match ev with
  | CommentAdded r n body username =>
      match repo_cfgs !! r with
      | Some cfg =>
          on_pr r n
            (fun st g =>
               let '(_, st', g') :=
                 parse_commands gh body username cfg st my_username g true "" in
               (st', g')) w
      | None => w
      end
  | HeadUpdated r n new_sha => on_pr r n (head_advanced new_sha true) w
  | Tick =>
      let '(states, g, _) := process_queue gh repo_cfgs repos (w_states w) (w_sys w) in
      {| w_states := states; w_sys := g |}
  end.

(** The PRs of a repository that are pending and not try builds. *)
Definition gated_builds (w : World) (r : string) : list Z :=
  fst <$> List.filter (fun p => gated_pending (snd p)) (default [] (w_states w !! r)).

(** One repository with two open PRs, nothing approved, nothing building. *)
Definition quiet_world : World :=
  {| w_states := {[ "rust" := [(1%Z, demo_pr "rust" 1); (2%Z, demo_pr "rust" 2)] ]};
     w_sys := demo_sys |}.

(** A try build of PR 1 is requested and started, PR 2 is approved and its
    gated build started, then the try of PR 1 is withdrawn. *)
Definition try_then_withdraw : list Event :=
  [ CommentAdded "rust" 1 "@homu try" "bob"; Tick;
    CommentAdded "rust" 2 "@homu r+ bbbb2222" "alice"; Tick;
    CommentAdded "rust" 1 "@homu try-" "bob"; Tick ].

(** The table found at start-up: a pending row without merge commit, a
    pending row with one, and a row whose PR is no longer open. *)
Definition demo_rows : list Row :=
  [ mkRow "rust" 1 "pending" None;
    mkRow "rust" 2 "pending" (Some "merge-bbbb2222");
    mkRow "rust" 7 "success" (Some "merge-dddd4444") ].

From stdpp Require sorting.

(** ** Vocabulary of the further properties *)



(** The PRs [process_queue] may pass to [start_build]: the conditions of
    its three [if]s on the attributes of the PR. *)
Definition ready (st : PullReqState) : bool :=
  (String.eqb (status st) "" && (truthy (approved_by st) || try_ st))
  || (String.eqb (status st) "success" && try_ st && truthy (approved_by st)).

(** [b] is [a], or [a] with the try flag cleared. *)
Definition same_but_try (a b : PullReqState) : Prop :=
  b = a \/ b = set_try false a.

(** The same PRs under the same numbers, up to cleared try flags. *)
Definition pulls_same_but_try (l l' : pulls) : Prop :=
  Forall2 (fun p p' => fst p' = fst p /\ same_but_try (snd p) (snd p')) l l'.



(** The walk of [process_queue] over one repository, seen as the
    [start_build] calls it makes: each call is on a ready PR of the current
    list (with the try flag cleared first when the PR is promoted), its
    result is stored back in place, and the walk goes on only after a call
    that returned [False]. *)
Inductive calls (gh : Platform) (repo_cfgs : gmap string RepoCfg) (r : string)
    : pulls -> Sys -> pulls -> Sys -> flow -> Prop :=
  | calls_none (l : pulls) (g : Sys) : calls gh repo_cfgs r l g l g Next
  | calls_last (l : pulls) (g : Sys) (i : nat) (st st0 st1 : PullReqState)
      (g1 : Sys) (o : outcome) :
      pr_at l i = Some st -> ready st = true -> same_but_try st st0 ->
      start_build gh repo_cfgs r st0 g = (st1, g1, o) ->
      flow_of o <> Next ->
      calls gh repo_cfgs r l g (pr_put l i st1) g1 (flow_of o)
  | calls_more (l : pulls) (g : Sys) (i : nat) (st st0 st1 : PullReqState)
      (g1 : Sys) (l2 : pulls) (g2 : Sys) (f : flow) :
      pr_at l i = Some st -> ready st = true -> same_but_try st st0 ->
      start_build gh repo_cfgs r st0 g = (st1, g1, Ret false) ->
      calls gh repo_cfgs r (pr_put l i st1) g1 l2 g2 f ->
      calls gh repo_cfgs r l g l2 g2 f.

(** The PRs of a repository in the order in which [process_queue] visits
    them. *)
Definition visit_order (l : pulls) : list PullReqState :=
  omap (pr_at l) (repo_states l).

(** ** [fetch_mergeability] *)

Definition set_mergeable (v : option bool) (st : PullReqState) : PullReqState :=
  mkPullReqState (num st) (priority st) (rollup st) (title st) (body st)
    (head_ref st) (base_ref st) (assignee st) (head_sha st) (approved_by st)
    (status st) (merge_sha st) (build_res st) (try_ st) v (repo st) (issue st).

(** The inner loop [for state in states[repo.name].values()].  [ask r n]
    is what [repo.pull_request(n).mergeable] answers during this round,
    [None] when the call raises.  The result tells whether an exception
    ended the loop. *)
Fixpoint fetch_pulls (ask : string -> Z -> option (option bool)) (r : string)
    (l : pulls) : pulls * bool :=
  match l with
  | [] => ([], false)
  | (k, st) :: rest =>
      match mergeable st with
      | None =>
          match ask r (num st) with
          | None => ((k, st) :: rest, true)
          | Some m =>
              let '(rest', raised) := fetch_pulls ask r rest in
              ((k, set_mergeable m st) :: rest', raised)
          end
      | Some _ =>
          let '(rest', raised) := fetch_pulls ask r rest in
          ((k, st) :: rest', raised)
      end
  end.

(** One round of [while True]: the [try] block, whose [except] swallows
    every exception (a missing [states[repo.name]] included) and ends the
    round; the [time.sleep(60)] between rounds is not modelled.  The other
    threads are taken not to run during the round. *)
Fixpoint fetch_round (ask : string -> Z -> option (option bool))
    (repos : list string) (states : gmap string pulls) : gmap string pulls * bool :=
  match repos with
  | [] => (states, false)
  | r :: rest =>
      match states !! r with
      | None => (states, true)
      | Some l =>
          let '(l', raised) := fetch_pulls ask r l in
          if raised then (<[r := l']> states, true)
          else fetch_round ask rest (<[r := l']> states)
      end
  end.

(** [fetch_mergeability] for [n] rounds; [asks] gives the answers of each
    round. *)
Fixpoint fetch_mergeability (asks : nat -> string -> Z -> option (option bool))
    (n : nat) (repos : list string) (states : gmap string pulls) : gmap string pulls :=
  match n with
  | O => states
  | S n' =>
      fetch_mergeability (fun k => asks (S k)) n' repos
        (fst (fetch_round (asks O) repos states))
  end.

(** [b] is [a], or [a] had no known mergeability and [b] is [a] with one. *)
Definition same_but_mergeable (a b : PullReqState) : Prop :=
  b = a \/ (mergeable a = None /\ exists m, b = set_mergeable m a).

Definition pulls_same_but_mergeable (l l' : pulls) : Prop :=
  Forall2 (fun p p' => fst p' = fst p /\ same_but_mergeable (snd p) (snd p')) l l'.

(** ** One build at a time with Buildbot *)





(** ** The commit an approval is checked against *)

(** The words that approve: the condition of the first [if] of the loop. *)
Definition is_approval (word : string) : bool :=
  String.eqb word "r+" || startswith word "r=".

(** The word that follows the first approving word, if any. *)
Fixpoint sha_after_first_approval (words : list string) : option string :=
  match words with
  | [] => None
  | word :: rest =>
      if is_approval word then head rest else sha_after_first_approval rest
  end.

(** The text that every approval of a comment is compared with: the [sha]
    argument when it is not empty, else the word after the first approving
    word. *)
Definition approval_sha (sha : string) (words : list string) : string :=
  if truthy sha then sha else default "" (sha_after_first_approval words).



(** * Properties *)

(** ** Strings *)


Lemma startswith_spec (s p : string) :
  startswith s p = true <-> exists t, s = p +:+ t.
Proof.
  revert s. induction p as [|a p IH]; intros s; simpl.
  - split; [intros _; by exists s | done].
  - destruct s as [|b s].
    + split; [done | intros [t Ht]; discriminate].
    + rewrite andb_true_iff, IH, Ascii.eqb_eq. split.
      * intros [-> [t ->]]. by exists t.
      * intros [t Ht]. injection Ht as -> ->. eauto.
Qed.




Lemma str_in_spec (n h : string) :
  str_in n h = true <-> exists a b, h = a +:+ n +:+ b.
Proof.
  induction h as [|c h IH]; simpl.
  - rewrite orb_false_r, startswith_spec. split.
    + intros [t Ht]. by exists "", t.
    + intros [a [b Hab]]. destruct a; [by exists b | discriminate].
  - rewrite orb_true_iff, startswith_spec, IH. split.
    + intros [[t Ht] | [a [b Hab]]].
      * by exists "", t.
      * exists (String c a), b. simpl. by rewrite Hab.
    + intros [a [b Hab]]. destruct a as [|c' a].
      * left. by exists b.
      * right. injection Hab as -> ->. eauto.
Qed.

(** ** [sha_cmp] *)


(** ** The helpers on small inputs *)

Example findall_nonspace_words :
  findall_nonspace (" @homu  r+" +:+ String "010"%char "abcd ") = ["@homu"; "r+"; "abcd"].
Proof. reflexivity. Qed.

Example py_int_values :
  py_int <$> ["5"; "-12"; "+7"; "007"; "1_000"; ""; "abc"; "1_"; "_1"; "1__0"; "-"; "3.5"]
  = [Some 5; Some (-12); Some 7; Some 7; Some 1000; None; None; None; None; None; None;
     None]%Z.
Proof. reflexivity. Qed.

Example str_in_mention :
  str_in "@homu" "please @homu r+" = true /\ str_in "@homu" "please homu r+" = false.
Proof. by vm_compute. Qed.

Example buildbot_error_values :
  buildbot_error "<html>authzfail</html>" = "Authorization failed"
  /\ buildbot_error ("<p><div class=" +:+ String "034"%char "error" +:+ String "034"%char
                     "> no such builder </div></p><div>x</div>")
     = "no such builder"
  /\ buildbot_error "<html>ok</html>" = "".
Proof. by vm_compute. Qed.

(** ** Queue ordering *)

Lemma list_lt_lex (a b : list Z) :
  length a = length b -> (list_lt a b = true <-> lex_less a b).
Proof.
  revert b. induction a as [|x a IH]; intros [|y b] Hlen; simplify_eq/=.
  - split; [done|]. intros (p & x & y & ta & tb & Ha & _). by destruct p.
  - destruct (Z.ltb_spec x y) as [Hxy|Hxy].
    + split; [|done]. intros _. by exists [], x, y, a, b.
    + destruct (Z.ltb_spec y x) as [Hyx|Hyx].
      * split; [done|]. intros (p & x' & y' & ta & tb & Ha & Hb & Hlt).
        destruct p; simplify_eq/=; lia.
      * assert (x = y) as -> by lia. rewrite IH by done. split.
        -- intros (p & x' & y' & ta & tb & -> & -> & Hlt).
           by exists (y :: p), x', y', ta, tb.
        -- intros (p & x' & y' & ta & tb & Ha & Hb & Hlt).
           destruct p; simplify_eq/=; [lia|]. by exists p, x', y', ta, tb.
Qed.

Lemma list_lt_asym (a b : list Z) : list_lt a b = true -> list_lt b a = false.
Proof.
  revert b. induction a as [|x a IH]; intros [|y b]; simpl; try done.
  destruct (Z.ltb_spec x y), (Z.ltb_spec y x); try done; try lia. apply IH.
Qed.

Lemma list_le_trans (a b c : list Z) :
  list_lt b a = false -> list_lt c b = false -> list_lt c a = false.
Proof.
  revert b c. induction a as [|x a IH]; intros [|y b] [|z c]; simpl; try done.
  destruct (Z.ltb_spec y x), (Z.ltb_spec x y), (Z.ltb_spec z y), (Z.ltb_spec y z),
    (Z.ltb_spec z x), (Z.ltb_spec x z); try done; try lia.
  apply IH.
Qed.

Lemma list_lt_last (p q : list Z) (x y : Z) :
  length p = length q ->
  list_lt (p ++ [x]) (q ++ [y]) = true <-> lex_less p q \/ (p = q /\ (x < y)%Z).
Proof.
  intros Hlen. rewrite list_lt_lex by (rewrite !length_app; simpl; lia). split.
  - intros (r & u & v & ta & tb & Ha & Hb & Hlt).
    destruct (decide (ta = [])) as [->|Hta].
    + apply app_inj_tail in Ha as [-> ->].
      assert (length tb = 0%nat) as Htb.
      { apply (f_equal length) in Hb. rewrite !length_app in Hb. simpl in Hb. lia. }
      destruct tb; [|done]. apply app_inj_tail in Hb as [-> ->]. by right.
    + left. destruct (exists_last Hta) as (ta' & x' & ->).
      assert (tb <> []) as Htb.
      { intros ->. apply (f_equal length) in Ha, Hb.
        rewrite !length_app in Ha, Hb. simpl in Ha, Hb. rewrite length_app in Ha.
        simpl in Ha. lia. }
      destruct (exists_last Htb) as (tb' & y' & ->).
      change (p ++ [x] = r ++ (u :: ta') ++ [x']) in Ha.
      change (q ++ [y] = r ++ (v :: tb') ++ [y']) in Hb.
      rewrite app_assoc in Ha, Hb.
      apply app_inj_tail in Ha as [-> _]. apply app_inj_tail in Hb as [-> _].
      by exists r, u, v, ta', tb'.
  - intros [(r & u & v & ta & tb & -> & -> & Hlt) | [-> Hlt]].
    + exists r, u, v, (ta ++ [x]), (tb ++ [y]). by rewrite <- !app_assoc.
    + by exists q, x, y, [], [].
Qed.

Section Sorting.
Context {A : Type} (ltb : A -> A -> bool).
Hypothesis ltb_asym : forall x y, ltb x y = true -> ltb y x = false.

Lemma insort_perm (x : A) (l : list A) : Permutation (insort ltb x l) (x :: l).
Proof.
  induction l as [|y l IH]; simpl; [done|].
  destruct (ltb x y); [done|]. rewrite IH. apply perm_swap.
Qed.

Lemma insort_hd (x y : A) (l : list A) :
  key_le ltb y x -> HdRel (key_le ltb) y l -> HdRel (key_le ltb) y (insort ltb x l).
Proof.
  unfold key_le. intros Hyx Hhd. destruct l as [|z l]; simpl; [by constructor|].
  destruct (ltb x z); constructor; [done|]. by inversion Hhd.
Qed.

Lemma insort_sorted (x : A) (l : list A) :
  Sorted (key_le ltb) l -> Sorted (key_le ltb) (insort ltb x l).
Proof.
  induction 1 as [|y l Hs IH Hhd]; simpl.
  - repeat constructor.
  - destruct (ltb x y) eqn:Hxy.
    + constructor; [by constructor|]. constructor. by apply ltb_asym.
    + constructor; [done|]. by apply insort_hd.
Qed.

Lemma sorted_acc (l acc : list A) :
  Sorted (key_le ltb) acc ->
  Permutation (foldl (fun a x => insort ltb x a) acc l) (acc ++ l)
  /\ Sorted (key_le ltb) (foldl (fun a x => insort ltb x a) acc l).
Proof.
  revert acc. induction l as [|x l IH]; intros acc Hs; simpl.
  - by rewrite app_nil_r.
  - destruct (IH (insort ltb x acc)) as [Hp Hs']; [by apply insort_sorted|].
    split; [|done]. rewrite Hp, insort_perm. by rewrite <- Permutation_middle.
Qed.

Lemma sorted_spec (l : list A) :
  Permutation (sorted ltb l) l /\ Sorted (key_le ltb) (sorted ltb l).
Proof. apply (sorted_acc l []). constructor. Qed.
End Sorting.

Lemma STATUS_TO_PRIORITY_get (s : string) :
  default (-1)%Z (STATUS_TO_PRIORITY !! s) = status_bucket s.
Proof.
  unfold status_bucket.
  repeat match goal with
         | |- context [String.eqb s ?x] =>
             destruct (String.eqb_spec s x) as [->|?]; [by vm_compute|]
         end.
  unfold STATUS_TO_PRIORITY. rewrite (not_elem_of_list_to_map_1 _ s); [done|].
  simpl. rewrite !not_elem_of_cons. set_solver.
Qed.

Lemma truthy_spec (s : string) : truthy s = negb (bool_decide (s = "")).
Proof.
  unfold truthy. destruct (String.eqb_spec s ""); by case_bool_decide.
Qed.

Lemma sort_key_length (st : PullReqState) : length (sort_key st) = 6%nat.
Proof. reflexivity. Qed.

(** C3: the sort key is the list of status bucket of the derived status,
    known-unmergeable flag, unapproved flag, rollup flag, negated priority
    and PR number; PRs compare by the lexicographic order of their keys, the
    PR number deciding when the first five components agree; and sorting
    puts smaller keys first. *)
Theorem sort_key_lexicographic :
  (forall st : PullReqState,
      sort_key st =
        [ status_bucket (get_status st);
          if bool_decide (mergeable st = Some false) then 1 else 0;
          if bool_decide (approved_by st = "") then 1 else 0;
          if rollup st then 1 else 0;
          - priority st;
          num st ]%Z)
  /\ (forall st : PullReqState,
         get_status st =
           if bool_decide (status st = "" /\ approved_by st <> ""
                           /\ mergeable st <> Some false)
           then "approved" else status st)
  /\ (forall a b : PullReqState, lt a b = true <-> lex_less (sort_key a) (sort_key b))
  /\ (forall a b : PullReqState,
         lt a b = true <->
         lex_less (take 5 (sort_key a)) (take 5 (sort_key b))
         \/ (take 5 (sort_key a) = take 5 (sort_key b) /\ (num a < num b)%Z))
  /\ (forall l : list PullReqState,
         Permutation (sorted lt l) l
         /\ StronglySorted (key_le lt) (sorted lt l)).
Proof.
  split; [|split; [|split; [|split]]].
  - intros st. unfold sort_key. rewrite STATUS_TO_PRIORITY_get, truthy_spec.
    by destruct (bool_decide (approved_by st = "")).
  - intros st. unfold get_status. rewrite truthy_spec.
    destruct (String.eqb_spec (status st) "");
      repeat case_bool_decide; simpl; try done; tauto.
  - intros a b. unfold lt. by apply list_lt_lex.
  - intros a b. unfold lt.
    change (sort_key a) with (take 5 (sort_key a) ++ [num a]) at 1.
    change (sort_key b) with (take 5 (sort_key b) ++ [num b]) at 1.
    by apply list_lt_last.
  - intros l.
    destruct (sorted_spec lt (fun x y => list_lt_asym _ _) l) as [Hp Hs].
    split; [done|]. apply Sorted_StronglySorted; [|done].
    intros x y z. unfold key_le, lt. apply list_le_trans.
Qed.

(** Of two approved PRs the one with the higher priority comes first, and a
    pending PR comes before both. *)
Example priority_overrides_number :
  let p10 := demo_approved "rust" 10 in
  let p11 := set_priority 5 (demo_approved "rust" 11) in
  let p12 := set_raw_status "pending" (demo_approved "rust" 12) in
  num <$> sorted lt [p10; p11; p12] = [12; 11; 10]%Z.
Proof. by vm_compute. Qed.

(** ** [head_advanced] *)

Lemma find_filter_negb {A} (p : A -> bool) (l : list A) :
  List.find p (List.filter (fun x => negb (p x)) l) = None.
Proof.
  induction l as [|x l IH]; simpl; [done|].
  destruct (p x) eqn:Hp; simpl; [done|]. by rewrite Hp.
Qed.

Lemma find_app {A} (p : A -> bool) (l k : list A) :
  List.find p (l ++ k) = match List.find p l with Some x => Some x | None => List.find p k end.
Proof. induction l as [|x l IH]; simpl; [done|]. by destruct (p x). Qed.

Lemma row_is_refl (r : string) (n : Z) (s : string) (m : option string) :
  row_is r n (mkRow r n s m) = true.
Proof. unfold row_is. simpl. by rewrite !bool_decide_eq_true_2. Qed.

Lemma db_replace_status_select (r : string) (n : Z) (s : string) (d : list Row) :
  db_select_status r n (db_replace_status r n s d) = Some s.
Proof.
  unfold db_select_status, db_replace_status.
  rewrite find_app, find_filter_negb. simpl. by rewrite row_is_refl.
Qed.

(** C6: [head_advanced(new_sha)] records the new head and, in the same call,
    clears the approval, the status, the merge commit, the build results,
    the try flag and the mergeability, and writes the empty status to the
    table.  Everything else is left as it was. *)
Theorem head_advanced_resets (new_sha : string) (st : PullReqState) (g : Sys) :
  let st' := fst (head_advanced new_sha true st g) in
  let g' := snd (head_advanced new_sha true st g) in
  head_sha st' = new_sha /\ approved_by st' = "" /\ status st' = ""
  /\ merge_sha st' = "" /\ build_res st' = ∅ /\ try_ st' = false
  /\ mergeable st' = None
  /\ db_select_status (repo st) (num st) (db g') = Some ""
  /\ List.filter (row_is (repo st) (num st)) (db g') = [mkRow (repo st) (num st) "" None]
  /\ (num st', priority st', rollup st', title st', body st', head_ref st',
      base_ref st', assignee st', repo st', issue st')
     = (num st, priority st, rollup st, title st, body st, head_ref st,
        base_ref st, assignee st, repo st, issue st)
  /\ slot g' = slot g /\ out g' = out g.
Proof.
  simpl. repeat split; try done.
  - apply db_replace_status_select.
  - unfold db_replace_status. rewrite List.filter_app. simpl. rewrite row_is_refl.
    assert (List.filter (row_is (repo st) (num st))
              (List.filter (fun x => negb (row_is (repo st) (num st) x)) (db g)) = []) as ->;
      [|done].
    induction (db g) as [|x d IH]; simpl; [done|].
    destruct (row_is (repo st) (num st) x) eqn:Hx; simpl; [done|]. by rewrite Hx.
Qed.

(** ** [parse_commands] *)

Lemma list_in_spec (x : string) (l : list string) : list_in x l = true <-> x ∈ l.
Proof. unfold list_in. by rewrite bool_decide_eq_true. Qed.

(** C9: a comment whose author is not a reviewer of the repository, or
    whose body does not contain [@] followed by the bot's name, is ignored:
    the result is [False] and neither the PR nor anything else changes. *)
Theorem parse_commands_gate (gh : Platform) (body username : string) (cfg : RepoCfg)
    (st : PullReqState) (my_username : string) (g : Sys)
    (realtime : bool) (sha : string) :
  username ∉ reviewers cfg
  \/ ~ (exists a b, body = a +:+ ("@" +:+ my_username) +:+ b) ->
  parse_commands gh body username cfg st my_username g realtime sha = (false, st, g).
Proof.
  intros Hgate. unfold parse_commands.
  destruct (list_in username (reviewers cfg)) eqn:Hrev; simpl; [|done].
  destruct (str_in ("@" +:+ my_username) body) eqn:Hin; simpl; [|done].
  apply list_in_spec in Hrev. apply str_in_spec in Hin. tauto.
Qed.

Lemma parse_commands_gate_witness :
  parse_commands demo_platform "@homu r+ aaaa" "mallory" (demo_cfg "rust" None)
    (demo_pr "rust" 1) "homu" demo_sys true ""
  = (false, demo_pr "rust" 1, demo_sys).
Proof. apply parse_commands_gate. left. compute_done. Defined.

Lemma list_in_cons (x y : string) (l : list string) :
  list_in x (y :: l) = String.eqb x y || list_in x l.
Proof.
  unfold list_in. destruct (String.eqb_spec x y) as [->|Hne]; simpl.
  - apply bool_decide_eq_true_2. by left.
  - apply bool_decide_ext. rewrite elem_of_cons. tauto.
Qed.

Lemma list_in_nil (x : string) : list_in x [] = false.
Proof. apply bool_decide_eq_false_2, not_elem_of_nil. Qed.

(** The flag [found] of one iteration says whether the word is a command. *)
Lemma command_found (gh : Platform) (username : string) (cfg : RepoCfg)
    (realtime : bool) (word : string) (next : option string)
    (sha : string) (st : PullReqState) (g : Sys) :
  snd (command gh username cfg realtime word next sha st g) = recognized realtime word.
Proof.
  unfold command, recognized.
  rewrite !list_in_cons, !list_in_nil, !orb_false_r.
  generalize (String.eqb word "r+" || startswith word "r=").
  intros [|]; [destruct (sha_cmp _ _); [done|]; by destruct realtime|].
  generalize (String.eqb word "r-"). intros [|]; [done|].
  generalize (startswith word "p="). intros [|]; [by destruct (py_int _)|].
  generalize (String.eqb word "retry"), (String.eqb word "try"),
    (String.eqb word "try-"), (String.eqb word "rollup"),
    (String.eqb word "rollup-"), (String.eqb word "force").
  intros [|] [|] [|] [|] [|] [|]; destruct realtime; try done;
    by destruct (force_build _ _ _ _).
Qed.

Lemma commands_changed (gh : Platform) (username : string) (cfg : RepoCfg)
    (realtime : bool) (words : list string) (sha : string)
    (st : PullReqState) (g : Sys) (changed : bool) :
  fst (fst (commands gh username cfg realtime words sha st g changed))
  = changed || existsb (recognized realtime) words.
Proof.
  revert sha st g changed. induction words as [|w ws IH]; intros; simpl.
  - by rewrite orb_false_r.
  - pose proof (command_found gh username cfg realtime w (head ws) sha st g) as Hf.
    destruct (command _ _ _ _ _ _ _ _ _) as [[[sha1 st1] g1] found].
    simpl in Hf. subst found. rewrite IH. by rewrite orb_assoc.
Qed.

(** A command that names no matching commit, an unreadable priority and
    [force] leave the PR fields alone. *)
Lemma command_no_effect (gh : Platform) (username : string) (cfg : RepoCfg)
    (realtime : bool) (word : string) (next : option string)
    (sha : string) (st : PullReqState) (g : Sys) :
  let '(sha1, st1, _, _) := command gh username cfg realtime word next sha st g in
  (String.eqb word "r+" || startswith word "r=" = true ->
   sha_cmp sha1 (head_sha st) = false -> pr_fields st1 = pr_fields st)
  /\ (String.eqb word "r+" || startswith word "r=" = false ->
      String.eqb word "r-" = false -> startswith word "p=" = true ->
      py_int (str_drop 2 word) = None -> st1 = st)
  /\ (word = "force" -> pr_fields st1 = pr_fields st).
Proof.
  destruct (decide (word = "force")) as [->|Hnf].
  - unfold command.
    change (String.eqb "force" "r+" || startswith "force" "r=") with false.
    change (String.eqb "force" "r-") with false.
    change (startswith "force" "p=") with false.
    change (String.eqb "force" "retry") with false.
    change (list_in "force" ["try"; "try-"]) with false.
    change (list_in "force" ["rollup"; "rollup-"]) with false.
    change (String.eqb "force" "force") with true.
    destruct realtime; lazy beta iota delta [andb]; [|done]. unfold force_build.
    by destruct (truthy _).
  - unfold command.
    destruct (String.eqb word "r+" || startswith word "r=") eqn:Hr.
    { destruct (sha_cmp _ _) eqn:Hcmp; [|destruct realtime];
        unfold add_comment; lazy beta iota;
        (split; [intros _ Hc; first [congruence | reflexivity]|done]). }
    destruct (String.eqb word "r-") eqn:Hm; [done|].
    destruct (startswith word "p=") eqn:Hp.
    { destruct (py_int _) eqn:Hint; (split; [done|split; [congruence|done]]). }
    destruct (if String.eqb word "retry" && realtime then _ else _) as [[[? ?] ?] ?].
    done.
Qed.

(** C10: the result of [parse_commands] is [True] exactly when the author
    is a reviewer, the body mentions the bot, and some word of the body is a
    command, whether or not that command changed the PR: an approval naming
    no matching commit, [p=] with an unreadable number and [force] all
    give [True] and leave the fields of the PR as they were. *)
Theorem parse_commands_state_changed :
  (forall (gh : Platform) (body username : string) (cfg : RepoCfg)
      (st : PullReqState) (my_username : string) (g : Sys)
      (realtime : bool) (sha : string),
      fst (fst (parse_commands gh body username cfg st my_username g realtime sha))
      = list_in username (reviewers cfg)
        && str_in ("@" +:+ my_username) body
        && existsb (recognized realtime) (findall_nonspace body))
  /\ (forall realtime : bool,
         Forall (fun body =>
                   let r := parse_commands demo_platform body "bob" (demo_cfg "rust" None)
                              (demo_pr "rust" 1) "homu" demo_sys realtime "" in
                   fst (fst r) = true
                   /\ pr_fields (snd (fst r)) = pr_fields (demo_pr "rust" 1))
           ["@homu r+ bbbb"; "@homu r+"; "@homu r=alice 123"; "@homu p=high";
            "@homu p="])
  /\ (let r := parse_commands demo_platform "@homu force" "bob" (demo_cfg "rust" None)
                 (demo_pr "rust" 1) "homu" demo_sys true "" in
      fst (fst r) = true /\ snd (fst r) = demo_pr "rust" 1)
  /\ (let r := parse_commands demo_platform "@homu force retry try" "bob"
                 (demo_cfg "rust" None) (demo_pr "rust" 1) "homu" demo_sys false "" in
      r = (false, demo_pr "rust" 1, demo_sys)).
Proof.
  split; [|split; [|split]].
  - intros gh body username cfg st my_username g realtime sha. unfold parse_commands.
    destruct (list_in username (reviewers cfg)); simpl; [|done].
    destruct (str_in _ body); simpl; [|done].
    by rewrite commands_changed.
  - intros [|]; repeat constructor; by vm_compute.
  - by vm_compute.
  - by vm_compute.
Qed.

(** *** Idempotence *)

Lemma sync_trans {X} (f : PullReqState -> X) (a a' b b' c c' : PullReqState) :
  sync f a a' b b' -> sync f b b' c c' -> sync f a a' c c'.
Proof. unfold sync. intros [?|[? ?]] [?|[? ?]]; [by left|left|by left|right]; split_and?; congruence. Qed.

Lemma syncs_trans (a a' b b' c c' : PullReqState) :
  syncs a a' b b' -> syncs b b' c c' -> syncs a a' c c'.
Proof.
  unfold syncs. intros (?&?&?&?&?&?&?) (?&?&?&?&?&?&?).
  repeat split; eapply sync_trans; eauto.
Qed.

Lemma syncs_refl (a a' : PullReqState) : syncs a a' a a'.
Proof. unfold syncs, sync. repeat split; by right. Qed.

(** After the same word, two runs agree on the local [sha], keep the
    attributes that identify the PR, and are in [syncs]. *)
Lemma command_sync (gh gh' : Platform) (username : string) (cfg : RepoCfg)
    (realtime : bool) (word : string) (next : option string) (sha : string)
    (a a' : PullReqState) (g g' : Sys) :
  head_sha a = head_sha a' ->
  let r := command gh username cfg realtime word next sha a g in
  let r' := command gh' username cfg realtime word next sha a' g' in
  fst (fst (fst r)) = fst (fst (fst r'))
  /\ pr_identity (snd (fst (fst r))) = pr_identity a
  /\ pr_identity (snd (fst (fst r'))) = pr_identity a'
  /\ syncs a a' (snd (fst (fst r))) (snd (fst (fst r'))).
Proof.
  intros Hhead. unfold command. rewrite Hhead.
  generalize (String.eqb word "r+" || startswith word "r=").
  intros [|].
  { destruct (sha_cmp _ _); [|destruct realtime]; simpl;
      (split; [done|split; [done|split; [done|]]]);
      unfold syncs, sync; simpl; repeat split; (by left) || (by right). }
  generalize (String.eqb word "r-"). intros [|].
  { simpl. repeat split; try done; unfold sync; simpl; (by left) || (by right). }
  generalize (startswith word "p="). intros [|].
  { destruct (py_int _); simpl;
      (split; [done|split; [done|split; [done|]]]);
      unfold syncs, sync; simpl; repeat split; (by left) || (by right). }
  generalize (String.eqb word "retry" && realtime). intros [|].
  { simpl. repeat split; try done; unfold sync; simpl; (by left) || (by right). }
  generalize (list_in word ["try"; "try-"] && realtime). intros [|].
  { simpl. repeat split; try done; unfold sync; simpl; (by left) || (by right). }
  generalize (list_in word ["rollup"; "rollup-"]). intros [|].
  { simpl. repeat split; try done; unfold sync; simpl; (by left) || (by right). }
  generalize (String.eqb word "force" && realtime). intros [|].
  { unfold force_build.
    destruct (truthy (buildbot_error (stopselected_text gh _ _)));
      destruct (truthy (buildbot_error (stopselected_text gh' _ _))); simpl;
      (split; [done|split; [done|split; [done|]]]);
      unfold syncs, sync; simpl; repeat split; by right. }
  simpl. split_and!; try done. apply syncs_refl.
Qed.

Lemma commands_sync (gh gh' : Platform) (username : string) (cfg : RepoCfg)
    (realtime : bool) (words : list string) (sha : string)
    (a a' : PullReqState) (g g' : Sys) (ch ch' : bool) :
  head_sha a = head_sha a' ->
  let r := commands gh username cfg realtime words sha a g ch in
  let r' := commands gh' username cfg realtime words sha a' g' ch' in
  pr_identity (snd (fst r)) = pr_identity a
  /\ pr_identity (snd (fst r')) = pr_identity a'
  /\ syncs a a' (snd (fst r)) (snd (fst r')).
Proof.
  revert sha a a' g g' ch ch'.
  induction words as [|w ws IH]; intros sha a a' g g' ch ch' Hhead; simpl.
  - split_and!; try done. apply syncs_refl.
  - pose proof (command_sync gh gh' username cfg realtime w (head ws) sha a a' g g' Hhead)
      as (Hsha & Hid & Hid' & Hsync).
    destruct (command gh _ _ _ _ _ _ _ _) as [[[sha1 b] g1] f].
    destruct (command gh' _ _ _ _ _ _ _ _) as [[[sha1' b'] g1'] f'].
    simpl in Hsha, Hid, Hid', Hsync. subst sha1'.
    assert (head_sha b = head_sha b') as Hhead'.
    { unfold pr_identity in Hid, Hid'. congruence. }
    destruct (IH sha1 b b' g1 g1' (ch || f) (ch' || f') Hhead') as (Hi & Hi' & Hs).
    split_and!; [congruence|congruence|]. eapply syncs_trans; eauto.
Qed.

(** C7: parsing the same comment a second time, on the state the first
    parse produced, leaves every PR field as the first parse left it.  The
    second parse may even meet a different platform. *)
Theorem parse_commands_idempotent (gh gh' : Platform) (body username : string)
    (cfg : RepoCfg) (st : PullReqState) (my_username : string) (g : Sys)
    (realtime : bool) (sha : string) :
  let once := parse_commands gh body username cfg st my_username g realtime sha in
  let twice := parse_commands gh' body username cfg (snd (fst once)) my_username
                 (snd once) realtime sha in
  pr_fields (snd (fst twice)) = pr_fields (snd (fst once))
  /\ pr_identity (snd (fst twice)) = pr_identity st.
Proof.
  unfold parse_commands.
  destruct (negb (list_in username (reviewers cfg))); simpl; [done|].
  destruct (negb (str_in _ body)); simpl; [done|].
  set (ws := findall_nonspace body).
  destruct (commands_sync gh gh' username cfg realtime ws sha st st g g false false eq_refl)
    as (Hid & _ & _).
  set (once := commands gh username cfg realtime ws sha st g false) in *.
  assert (head_sha (snd (fst once)) = head_sha st) as Hhead.
  { unfold pr_identity in Hid. congruence. }
  destruct (commands_sync gh gh' username cfg realtime ws sha st (snd (fst once))
              g (snd once) false false (eq_sym Hhead)) as (_ & Hid2 & Hs).
  fold once in Hs. split; [|congruence].
  destruct Hs as (H1 & H2 & H3 & H4 & H5 & H6 & H7).
  unfold pr_fields.
  repeat match goal with
         | H : sync _ _ _ _ _ |- _ => destruct H as [H|[_ H]]
         end; congruence.
Qed.

(** ** [start_build] *)

Lemma truthy_false (s : string) : truthy s = false <-> s = "".
Proof. rewrite truthy_spec. destruct (decide (s = "")); by case_bool_decide. Qed.

Lemma truthy_true (s : string) : truthy s = true <-> s <> "".
Proof. rewrite truthy_spec. destruct (decide (s = "")); by case_bool_decide. Qed.

(** An occupied slot declines the build. *)
Lemma start_build_declines (gh : Platform) (repo_cfgs : gmap string RepoCfg)
    (r : string) (st : PullReqState) (g : Sys) :
  slot g <> "" -> start_build gh repo_cfgs r st g = (st, g, Ret true).
Proof. intros Hbusy%truthy_true. unfold start_build. by rewrite Hbusy. Qed.




(** ** [process_queue] *)








Lemma pending_results_lookup (bs : list string) (b : string) :
  pending_results bs !! b = if bool_decide (b ∈ bs) then Some None else None.
Proof.
  unfold pending_results. case_bool_decide as Hb.
  - apply elem_of_list_to_map_1'.
    + intros y [x [[= <- <-] _]]%list_elem_of_fmap. done.
    + apply list_elem_of_fmap. by exists b.
  - apply not_elem_of_list_to_map_1. rewrite <- list_fmap_compose.
    intros [x [-> Hx]]%list_elem_of_fmap. done.
Qed.

Lemma imap_fst_seq {A B} (f : A -> B) (l : list A) (k : nat) :
  fst <$> imap (fun i p => (k + i, f p)) l = seq k (length l).
Proof.
  revert k. induction l as [|x l IH]; intros k; simpl; [done|].
  rewrite Nat.add_0_r. f_equal.
  rewrite <- (IH (S k)). f_equal. apply imap_ext. intros i y _. simpl. f_equal. lia.
Qed.

(** The order of the walk: [repo_states] names every PR of the repository
    once, and no PR stands before one that is smaller in the order. *)
Lemma repo_states_sorted (l : pulls) :
  Permutation (repo_states l) (seq 0 (length l))
  /\ exists keyed : list (nat * PullReqState),
      repo_states l = fst <$> keyed
      /\ (forall i st, (i, st) ∈ keyed -> pr_at l i = Some st)
      /\ StronglySorted (key_le lt) (snd <$> keyed).
Proof.
  unfold repo_states.
  set (ltb := fun a b : nat * PullReqState => lt (snd a) (snd b)).
  set (tagged := imap (fun i p => (i, snd p)) l).
  destruct (sorted_spec ltb (fun x y => list_lt_asym _ _) tagged) as [Hperm Hsorted].
  split.
  - rewrite Hperm. unfold tagged.
    by rewrite <- (imap_fst_seq snd l 0).
  - exists (sorted ltb tagged). split_and!; [done| |].
    + intros i st Hin. rewrite Hperm in Hin. unfold tagged in Hin.
      apply list_elem_of_lookup in Hin as [j Hj].
      rewrite list_lookup_imap in Hj. unfold pr_at.
      destruct (l !! j) as [[k st']|] eqn:Hlj; simplify_eq/=. by rewrite Hlj.
    + apply Sorted_StronglySorted.
      { intros x y z. unfold key_le, lt. apply list_le_trans. }
      clear Hperm. induction Hsorted as [|x ks Hs IH Hhd]; simpl; constructor; [done|].
      destruct Hhd; simpl; by constructor.
Qed.

(** ** Start-up recovery *)



Lemma dict_get_set_eq (k : Z) (v : PullReqState) (l : pulls) :
  dict_get k (dict_set k v l) = Some v.
Proof.
  unfold dict_get. induction l as [|[k' v'] l IH]; simpl.
  - by rewrite bool_decide_eq_true_2.
  - case_bool_decide as Hk; simpl.
    + by rewrite bool_decide_eq_true_2.
    + by rewrite bool_decide_eq_false_2.
Qed.

Lemma dict_get_set_ne (k k' : Z) (v : PullReqState) (l : pulls) :
  k' <> k -> dict_get k' (dict_set k v l) = dict_get k' l.
Proof.
  intros Hne. unfold dict_get. induction l as [|[k0 v0] l IH]; simpl.
  - by rewrite bool_decide_eq_false_2.
  - case_bool_decide as Hk; simpl in *.
    + subst k0. by rewrite !bool_decide_eq_false_2 by done.
    + destruct (bool_decide (k0 = k')); [done|]. apply IH.
Qed.

Lemma pr_of_insert_eq (states : gmap string pulls) (r : string) (n : Z)
    (v : PullReqState) (l : pulls) :
  pr_of (<[r := dict_set n v l]> states) r n = Some v.
Proof. unfold pr_of. rewrite lookup_insert_eq. simpl. apply dict_get_set_eq. Qed.

Lemma pr_of_insert_ne (states : gmap string pulls) (r r' : string) (n n' : Z)
    (v : PullReqState) (l : pulls) :
  states !! r = Some l -> (r', n') <> (r, n) ->
  pr_of (<[r := dict_set n v l]> states) r' n' = pr_of states r' n'.
Proof.
  intros Hl Hne. unfold pr_of. destruct (decide (r' = r)) as [->|Hr].
  - rewrite lookup_insert_eq, Hl. simpl. apply dict_get_set_ne. congruence.
  - by rewrite lookup_insert_ne.
Qed.

(** One row of the scan: the PR of the row becomes [recovered], every other
    PR stays, and the row is deleted exactly when it has no PR. *)
Lemma recover_row_spec (repo_cfgs : gmap string RepoCfg)
    (states : gmap string pulls) (g : Sys) (x : Row) :
  (forall r, is_Some (states !! r) -> is_Some (repo_cfgs !! r)) ->
  exists states' g',
    recover_row repo_cfgs (states, g, None) x = (states', g', None)
    /\ (forall r, is_Some (states' !! r) <-> is_Some (states !! r))
    /\ pr_of states' (row_repo x) (row_num x)
       = recovered repo_cfgs x <$> pr_of states (row_repo x) (row_num x)
    /\ (forall r n, (r, n) <> row_key x -> pr_of states' r n = pr_of states r n)
    /\ db g' = match pr_of states (row_repo x) (row_num x) with
               | Some _ => db g
               | None => db_delete (row_repo x) (row_num x) (db g)
               end
    /\ slot g' = slot g /\ out g' = out g.
Proof.
  intros Hcover. unfold recover_row.
  destruct (states !! row_repo x) as [l|] eqn:Hl; simpl.
  2:{ assert (pr_of states (row_repo x) (row_num x) = None) as Hpr
        by (unfold pr_of; by rewrite Hl).
      eexists _, _. split_and!; try done; by rewrite Hpr. }
  destruct (dict_get (row_num x) l) as [st|] eqn:Hst; simpl.
  2:{ assert (pr_of states (row_repo x) (row_num x) = None) as Hpr
        by (unfold pr_of; rewrite Hl; simpl; by rewrite Hst).
      eexists _, _. split_and!; try done; by rewrite Hpr. }
  assert (pr_of states (row_repo x) (row_num x) = Some st) as Hpr
    by (unfold pr_of; rewrite Hl; simpl; by rewrite Hst).
  rewrite Hpr. simpl.
  assert (forall v r, is_Some (<[row_repo x := dict_set (row_num x) v l]> states !! r)
                      <-> is_Some (states !! r)) as Hdom.
  { intros v r. destruct (decide (r = row_repo x)) as [->|Hne].
    - rewrite lookup_insert_eq, Hl. split; eauto.
    - by rewrite lookup_insert_ne. }
  unfold recovered.
  destruct (truthy (default "" (row_merge_sha x))).
  - destruct (Hcover (row_repo x)) as [cfg Hcfg]; [by rewrite Hl|].
    rewrite Hcfg. eexists _, _. split_and!; [done|apply Hdom| | |done|done|done].
    + by rewrite pr_of_insert_eq.
    + intros r n Hne. by apply pr_of_insert_ne.
  - destruct (String.eqb (status st) "pending").
    + eexists _, _. split_and!; [done|apply Hdom| | |done|done|done].
      * by rewrite pr_of_insert_eq.
      * intros r n Hne. by apply pr_of_insert_ne.
    + eexists _, _. split_and!; done.
Qed.




(** *** Loading the pull requests *)





















(** What start-up makes of [demo_rows]: PR 1 is downgraded, PR 2 stays
    pending on its merge commit with both builders pending and the
    approval replayed from its comment, and the row of the closed PR 7 is
    deleted. *)
Example startup_demo :
  let boot := fst (main_startup demo_platform "homu" [demo_cfg "rust" None] demo_rows) in
  (pr_fields <$> pr_of (b_states boot) "rust" 1)
  = Some ("", 0%Z, false, false, "", "", ∅)
  /\ (pr_fields <$> pr_of (b_states boot) "rust" 2)
     = Some ("bob", 0%Z, false, false, "pending", "merge-bbbb2222",
             {[ "linux" := None; "mac" := None ]})
  /\ db (b_sys boot) = [ mkRow "rust" 1 "pending" None;
                         mkRow "rust" 2 "pending" (Some "merge-bbbb2222") ].
Proof. by vm_compute. Qed.

(** ** One gated build at a time *)

(** C1 fails on the code.  With Travis as the back-end the slot is never
    taken.  From a world where nothing is pending, a try build of PR 1 is
    started, then the gated build of the approved PR 2 is started next to
    it, then [try-] on PR 1 clears its try flag while its status stays
    pending: the repository now has two pending PRs that are not try
    builds, and the next tick leaves it so. *)
Theorem two_gated_builds_pending :
  gated_builds quiet_world "rust" = []
  /\ gated_builds
       (foldl (handle demo_platform travis_cfgs ["rust"] "homu") quiet_world
          (take 4 try_then_withdraw)) "rust" = [2%Z]
  /\ gated_builds
       (foldl (handle demo_platform travis_cfgs ["rust"] "homu") quiet_world
          (take 5 try_then_withdraw)) "rust" = [1%Z; 2%Z]
  /\ gated_builds
       (foldl (handle demo_platform travis_cfgs ["rust"] "homu") quiet_world
          try_then_withdraw) "rust" = [1%Z; 2%Z].
Proof. by vm_compute. Qed.

(** * Further properties of the code *)

(** ** Replaying comments *)

Lemma command_offline (gh : Platform) (username : string) (cfg : RepoCfg)
    (word : string) (next : option string) (sha : string)
    (st : PullReqState) (g : Sys) :
  let r := command gh username cfg false word next sha st g in
  snd (fst r) = g
  /\ (status (snd (fst (fst r))), merge_sha (snd (fst (fst r))),
      build_res (snd (fst (fst r))), try_ (snd (fst (fst r))),
      issue (snd (fst (fst r))))
     = (status st, merge_sha st, build_res st, try_ st, issue st).
Proof.
  unfold command. rewrite !andb_false_r.
  generalize (String.eqb word "r+" || startswith word "r=").
  intros [|]; [by destruct (sha_cmp _ _)|].
  generalize (String.eqb word "r-"). intros [|]; [done|].
  generalize (startswith word "p="). intros [|]; [by destruct (py_int _)|].
  by generalize (list_in word ["rollup"; "rollup-"]); intros [|].
Qed.

Lemma commands_offline (gh : Platform) (username : string) (cfg : RepoCfg)
    (words : list string) (sha : string) (st : PullReqState) (g : Sys) (ch : bool) :
  let r := commands gh username cfg false words sha st g ch in
  snd r = g
  /\ (status (snd (fst r)), merge_sha (snd (fst r)), build_res (snd (fst r)),
      try_ (snd (fst r)), issue (snd (fst r)))
     = (status st, merge_sha st, build_res st, try_ st, issue st).
Proof.
  revert sha st ch. induction words as [|w ws IH]; intros sha st ch; simpl; [done|].
  destruct (command_offline gh username cfg w (head ws) sha st g) as [Hg Hs].
  destruct (command gh _ _ _ _ _ _ _ _) as [[[sha1 st1] g1] f]. simpl in Hg, Hs.
  subst g1. rewrite <- Hs. apply IH.
Qed.

(** X1: with [realtime] false, as at start-up, [parse_commands] is silent:
    it posts no comment, calls neither GitHub nor Buildbot, writes nothing
    to the table and leaves the slot alone, whatever the comment says; and
    it cannot touch the status, the merge commit, the build results or the
    try flag of the PR ([retry], [try], [try-] and [force] are not commands
    then). *)
Theorem parse_commands_offline_is_silent (gh : Platform) (body username : string)
    (cfg : RepoCfg) (st : PullReqState) (my_username : string) (g : Sys)
    (sha : string) :
  let r := parse_commands gh body username cfg st my_username g false sha in
  snd r = g
  /\ (status (snd (fst r)), merge_sha (snd (fst r)), build_res (snd (fst r)),
      try_ (snd (fst r)), issue (snd (fst r)))
     = (status st, merge_sha st, build_res st, try_ st, issue st).
Proof.
  unfold parse_commands.
  destruct (negb (list_in username (reviewers cfg))); [done|].
  destruct (negb (str_in _ body)); [done|].
  apply commands_offline.
Qed.

(** ** Approvals *)

Lemma command_approval (gh : Platform) (username : string) (cfg : RepoCfg)
    (realtime : bool) (word : string) (next : option string) (sha : string)
    (st : PullReqState) (g : Sys) :
  let r := command gh username cfg realtime word next sha st g in
  let sha1 := fst (fst (fst r)) in
  let st1 := snd (fst (fst r)) in
  head_sha st1 = head_sha st
  /\ (sha1 = sha \/ next = Some sha1)
  /\ (approved_by st1 = approved_by st
      \/ approved_by st1 = ""
      \/ (sha_cmp sha1 (head_sha st) = true
          /\ (approved_by st1 = username
              \/ (startswith word "r=" = true /\ approved_by st1 = str_drop 2 word)))).
Proof.
  unfold command.
  destruct (String.eqb word "r+" || startswith word "r=").
  { assert (match next with
            | Some w => if negb (truthy sha) then w else sha
            | None => sha
            end = sha
            \/ next = Some match next with
                           | Some w => if negb (truthy sha) then w else sha
                           | None => sha
                           end) as Hsha.
    { destruct next as [w|]; [|by left]. destruct (negb (truthy sha)); [by right|by left]. }
    destruct (sha_cmp _ _) eqn:Hcmp; [|destruct realtime];
      unfold add_comment; cbn [fst snd head_sha approved_by set_approved_by];
      (split; [done|split; [exact Hsha|]]); [|by left|by left].
    right. right. split; [done|]. destruct (startswith word "r="); [right|left]; done. }
  generalize (String.eqb word "r-"). intros [|].
  { simpl. split_and!; [done|by left|by right; left]. }
  generalize (startswith word "p="). intros [|].
  { destruct (py_int _); simpl; split_and!; done || by left. }
  generalize (String.eqb word "retry" && realtime). intros [|].
  { simpl. split_and!; done || by left. }
  generalize (list_in word ["try"; "try-"] && realtime). intros [|].
  { simpl. split_and!; done || by left. }
  generalize (list_in word ["rollup"; "rollup-"]). intros [|].
  { simpl. split_and!; done || by left. }
  generalize (String.eqb word "force" && realtime). intros [|].
  { unfold force_build. destruct (truthy (buildbot_error _)); simpl;
      split_and!; done || by left. }
  simpl. split_and!; done || by left.
Qed.

Lemma commands_approval (gh : Platform) (username : string) (cfg : RepoCfg)
    (realtime : bool) (words : list string) (sha : string)
    (st : PullReqState) (g : Sys) (ch : bool) :
  let st' := snd (fst (commands gh username cfg realtime words sha st g ch)) in
  head_sha st' = head_sha st
  /\ (approved_by st' = approved_by st
      \/ approved_by st' = ""
      \/ ((exists c, c ∈ sha :: words /\ sha_cmp c (head_sha st) = true)
          /\ (approved_by st' = username
              \/ exists w, w ∈ words /\ startswith w "r=" = true
                           /\ approved_by st' = str_drop 2 w))).
Proof.
  revert sha st g ch. induction words as [|w ws IH]; intros sha st g ch; simpl.
  { split; [done|by left]. }
  pose proof (command_approval gh username cfg realtime w (head ws) sha st g)
    as (Hhead & Hsha & Happ).
  destruct (command gh _ _ _ _ _ _ _ _) as [[[sha1 st1] g1] f]. simpl in Hhead, Hsha, Happ.
  destruct (IH sha1 st1 g1 (ch || f)) as (Hhead' & Happ').
  split; [congruence|].
  assert (sha1 ∈ sha :: w :: ws) as Hsha1.
  { destruct Hsha as [->|Hnext]; [by left|].
    destruct ws as [|w' ws']; [done|]. injection Hnext as ->.
    right. right. by left. }
  destruct Happ' as [Hsame|[Hempty|[(c & Hc & Hcmp) Hwho]]].
  - rewrite Hsame. destruct Happ as [?|[?|[Hcmp Hwho]]]; [by left|by right; left|].
    right. right. split; [by exists sha1|].
    destruct Hwho as [?|[? ?]]; [by left|]. right. exists w. split_and!; [by left|done|done].
  - by right; left.
  - right. right. split.
    + exists c. rewrite <- Hhead. split; [|done].
      apply elem_of_cons in Hc as [->|Hc]; [done|]. by right; right.
    + destruct Hwho as [?|(w' & Hw' & Hr & Heq)]; [by left|].
      right. exists w'. split_and!; [by right|done|done].
Qed.

(** X2: a comment cannot approve a PR without naming its head commit.
    After [parse_commands], [approved_by] is what it was, or empty, or a
    new approver; a new approver is recorded only when the author is a
    reviewer and the [sha] argument or some word of the comment passes
    [sha_cmp] against the head commit of the PR, and the approver is then the
    author or the text after [r=] of some word of the comment.  The head
    commit itself is never changed. *)
Theorem approval_names_head_commit (gh : Platform) (body username : string)
    (cfg : RepoCfg) (st : PullReqState) (my_username : string) (g : Sys)
    (realtime : bool) (sha : string) :
  let st' := snd (fst (parse_commands gh body username cfg st my_username g
                         realtime sha)) in
  head_sha st' = head_sha st
  /\ (approved_by st' = approved_by st
      \/ approved_by st' = ""
      \/ (username ∈ reviewers cfg
          /\ (exists c, c ∈ sha :: findall_nonspace body
                        /\ sha_cmp c (head_sha st) = true)
          /\ (approved_by st' = username
              \/ exists w, w ∈ findall_nonspace body /\ startswith w "r=" = true
                           /\ approved_by st' = str_drop 2 w))).
Proof.
  unfold parse_commands.
  destruct (list_in username (reviewers cfg)) eqn:Hrev; simpl; [|split; [done|by left]].
  destruct (negb (str_in _ body)); [split; [done|by left]|].
  apply list_in_spec in Hrev.
  destruct (commands_approval gh username cfg realtime (findall_nonspace body) sha st g false)
    as (Hhead & Happ).
  split; [done|]. destruct Happ as [?|[?|[? ?]]]; [by left|by right; left|].
  right. right. done.
Qed.

(** ** [start_build] when no build starts *)



(** ** The walk of [process_queue] as a sequence of [start_build] calls *)

Lemma flow_of_next (o : outcome) : flow_of o = Next <-> o = Ret false.
Proof. destruct o as [[|]|e]; simpl; split; congruence. Qed.

Lemma gated_pass_calls (gh : Platform) (repo_cfgs : gmap string RepoCfg) (r : string)
    (refs : list nat) (l : pulls) (g : Sys) :
  calls gh repo_cfgs r l g
    (fst (fst (gated_pass gh repo_cfgs r refs l g)))
    (snd (fst (gated_pass gh repo_cfgs r refs l g)))
    (snd (gated_pass gh repo_cfgs r refs l g)).
Proof.
  revert l g. induction refs as [|i refs IH]; intros l g; simpl; [constructor|].
  destruct (pr_at l i) as [st|] eqn:Hat; [|apply IH].
  destruct (String.eqb (status st) "pending" && negb (try_ st)); [constructor|].
  destruct (String.eqb (status st) "" && truthy (approved_by st)) eqn:Hc2.
  { assert (ready st = true) as Hready.
    { unfold ready. apply andb_true_iff in Hc2 as [-> ->]. done. }
    destruct (start_build gh repo_cfgs r st g) as [[st1 g1] o] eqn:Hsb.
    destruct (flow_of o) eqn:Hflow.
    - apply flow_of_next in Hflow as ->.
      eapply calls_more; [done|done|by left|done|apply IH].
    - rewrite <- Hflow. eapply calls_last; [done|done|by left|done|congruence].
    - rewrite <- Hflow. eapply calls_last; [done|done|by left|done|congruence]. }
  destruct (String.eqb (status st) "success" && try_ st && truthy (approved_by st)) eqn:Hc3.
  { assert (ready st = true) as Hready.
    { unfold ready. apply andb_true_iff in Hc3 as [[-> ->]%andb_true_iff ->].
      simpl. by rewrite orb_true_r. }
    destruct (start_build gh repo_cfgs r (set_try false st) g) as [[st1 g1] o] eqn:Hsb.
    destruct (flow_of o) eqn:Hflow.
    - apply flow_of_next in Hflow as ->.
      eapply calls_more; [done|done|by right|done|apply IH].
    - rewrite <- Hflow. eapply calls_last; [done|done|by right|done|congruence].
    - rewrite <- Hflow. eapply calls_last; [done|done|by right|done|congruence]. }
  apply IH.
Qed.

Lemma try_pass_calls (gh : Platform) (repo_cfgs : gmap string RepoCfg) (r : string)
    (refs : list nat) (l : pulls) (g : Sys) :
  calls gh repo_cfgs r l g
    (fst (fst (try_pass gh repo_cfgs r refs l g)))
    (snd (fst (try_pass gh repo_cfgs r refs l g)))
    (snd (try_pass gh repo_cfgs r refs l g)).
Proof.
  revert l g. induction refs as [|i refs IH]; intros l g; simpl; [constructor|].
  destruct (pr_at l i) as [st|] eqn:Hat; [|apply IH].
  destruct (String.eqb (status st) "" && try_ st) eqn:Hc; [|apply IH].
  assert (ready st = true) as Hready.
  { unfold ready. apply andb_true_iff in Hc as [-> ->]. simpl. by rewrite orb_true_r. }
  destruct (start_build gh repo_cfgs r st g) as [[st1 g1] o] eqn:Hsb.
  destruct (flow_of o) eqn:Hflow.
  - apply flow_of_next in Hflow as ->.
    eapply calls_more; [done|done|by left|done|apply IH].
  - rewrite <- Hflow. eapply calls_last; [done|done|by left|done|congruence].
  - rewrite <- Hflow. eapply calls_last; [done|done|by left|done|congruence].
Qed.

Lemma calls_then (gh : Platform) (repo_cfgs : gmap string RepoCfg) (r : string)
    (l : pulls) (g : Sys) (l1 : pulls) (g1 : Sys) (f1 : flow)
    (l2 : pulls) (g2 : Sys) (f2 : flow) :
  calls gh repo_cfgs r l g l1 g1 f1 -> f1 = Next ->
  calls gh repo_cfgs r l1 g1 l2 g2 f2 ->
  calls gh repo_cfgs r l g l2 g2 f2.
Proof.
  induction 1 as [| l g i st st0 st1 g1 o Hat Hready Hsame Hsb Hflow
                  | l g i st st0 st1 g1 l1 g1' f1 Hat Hready Hsame Hsb Hcalls IH];
    intros Hnext Hrest.
  - done.
  - done.
  - eapply calls_more; [done|done|done|done|]. by apply IH.
Qed.

Lemma process_repo_calls (gh : Platform) (repo_cfgs : gmap string RepoCfg) (r : string)
    (l : pulls) (g : Sys) :
  calls gh repo_cfgs r l g
    (fst (fst (process_repo gh repo_cfgs r l g)))
    (snd (fst (process_repo gh repo_cfgs r l g)))
    (snd (process_repo gh repo_cfgs r l g)).
Proof.
  unfold process_repo.
  pose proof (gated_pass_calls gh repo_cfgs r (repo_states l) l g) as Hg.
  destruct (gated_pass gh repo_cfgs r (repo_states l) l g) as [[l1 g1] f1].
  simpl in Hg. destruct f1; [|done|done].
  eapply calls_then; [done|done|apply try_pass_calls].
Qed.




(** *** An occupied slot *)

Lemma same_but_try_trans (a b c : PullReqState) :
  same_but_try a b -> same_but_try b c -> same_but_try a c.
Proof. intros [-> | ->] [-> | ->]; [by left|by right|by right|by right]. Qed.

Lemma pulls_same_but_try_refl (l : pulls) : pulls_same_but_try l l.
Proof. apply Forall2_same_length_lookup_2; [done|]. intros i p q Hp Hq. simplify_eq. split; [done|by left]. Qed.

Lemma pulls_same_but_try_trans (l1 l2 l3 : pulls) :
  pulls_same_but_try l1 l2 -> pulls_same_but_try l2 l3 -> pulls_same_but_try l1 l3.
Proof.
  unfold pulls_same_but_try. intros H12 H23.
  eapply Forall2_trans; [|exact H12|exact H23].
  intros p q s [Hk1 Hs1] [Hk2 Hs2]. split; [congruence|by eapply same_but_try_trans].
Qed.

Lemma pulls_same_but_try_put (l : pulls) (i : nat) (st st' : PullReqState) :
  pr_at l i = Some st -> same_but_try st st' ->
  pulls_same_but_try l (pr_put l i st').
Proof.
  intros Hat Hsame. unfold pr_at, pr_put in *.
  apply Forall2_same_length_lookup_2; [by rewrite length_alter|].
  intros j p q Hp Hq. rewrite list_lookup_alter in Hq.
  destruct (decide (i = j)) as [->|Hne].
  - rewrite Hp in Hq, Hat. simplify_eq/=. done.
  - simplify_eq. split; [done|by left].
Qed.

Lemma calls_busy (gh : Platform) (repo_cfgs : gmap string RepoCfg) (r : string)
    (l : pulls) (g : Sys) (l2 : pulls) (g2 : Sys) (f : flow) :
  calls gh repo_cfgs r l g l2 g2 f ->
  slot g <> "" ->
  g2 = g /\ pulls_same_but_try l l2 /\ (f = Next \/ f = Return).
Proof.
  induction 1 as [| l g i st st0 st1 g1 o Hat Hready Hsame Hsb Hflow
                  | l g i st st0 st1 g1 l1 g1' f1 Hat Hready Hsame Hsb Hcalls IH];
    intros Hbusy.
  - split_and!; [done|apply pulls_same_but_try_refl|by left].
  - rewrite (start_build_declines _ _ _ _ _ Hbusy) in Hsb. simplify_eq/=.
    split_and!; [done|by eapply pulls_same_but_try_put|by right].
  - rewrite (start_build_declines _ _ _ _ _ Hbusy) in Hsb. done.
Qed.

(** With an occupied slot a tick changes nothing but try flags. *)
Lemma process_queue_busy (gh : Platform) (repo_cfgs : gmap string RepoCfg)
    (repos : list string) (states : gmap string pulls) (g : Sys) :
  slot g <> "" ->
  snd (fst (process_queue gh repo_cfgs repos states g)) = g
  /\ (snd (process_queue gh repo_cfgs repos states g) = None
      \/ snd (process_queue gh repo_cfgs repos states g) = Some KeyError)
  /\ forall r,
       option_Forall2 pulls_same_but_try (states !! r)
         (fst (fst (process_queue gh repo_cfgs repos states g)) !! r).
Proof.
  intros Hbusy. revert states. induction repos as [|r repos IH]; intros states; simpl.
  { split_and!; [done|by left|]. intros r. destruct (states !! r); constructor.
    apply pulls_same_but_try_refl. }
  destruct (states !! r) as [l|] eqn:Hl; simpl.
  2:{ split_and!; [done|by right|]. intros r'. destruct (states !! r'); constructor.
      apply pulls_same_but_try_refl. }
  pose proof (process_repo_calls gh repo_cfgs r l g) as Hcalls.
  destruct (process_repo gh repo_cfgs r l g) as [[l1 g1] f]. simpl in Hcalls.
  apply calls_busy in Hcalls as (-> & Hsame & Hf); [|done].
  assert (forall r', option_Forall2 pulls_same_but_try (states !! r')
                       (<[r:=l1]> states !! r')) as Hstep.
  { intros r'. destruct (decide (r' = r)) as [->|Hne].
    - rewrite lookup_insert_eq, Hl. by constructor.
    - rewrite lookup_insert_ne by done. destruct (states !! r'); constructor.
      apply pulls_same_but_try_refl. }
  destruct Hf as [->| ->]; simpl.
  - destruct (IH (<[r:=l1]> states)) as (Hg & He & Hrel). split_and!; [done|done|].
    intros r'. specialize (Hstep r'). specialize (Hrel r').
    destruct Hstep as [a b Hab|]; inversion Hrel; simplify_eq; constructor.
    by eapply pulls_same_but_try_trans.
  - split_and!; [done|by left|done].
Qed.


(** X5: with an occupied slot a tick is inert.  [process_queue] then makes
    no call to GitHub, writes nothing to the table and leaves the slot as it
    is; no exception of [start_build] can occur; and every repository keeps
    its PRs, each exactly as it was except that the try flag of a PR may
    have been cleared (a PR whose try build succeeded and that is approved is
    promoted before [start_build] declines). *)
Theorem process_queue_busy_slot_inert (gh : Platform)
    (repo_cfgs : gmap string RepoCfg) (repos : list string)
    (states : gmap string pulls) (g : Sys) :
  slot g <> "" ->
  let res := process_queue gh repo_cfgs repos states g in
  snd (fst res) = g
  /\ (snd res = None \/ snd res = Some KeyError)
  /\ forall r, option_Forall2 pulls_same_but_try (states !! r) (fst (fst res) !! r).
Proof. intros Hbusy. by apply process_queue_busy. Qed.

Lemma process_queue_busy_slot_inert_witness :
  snd (fst (process_queue demo_platform buildbot_cfgs ["rust"; "cargo"] two_repos
              (with_slot "merge-cccc3333" demo_sys)))
  = with_slot "merge-cccc3333" demo_sys.
Proof.
  apply (process_queue_busy_slot_inert demo_platform buildbot_cfgs ["rust"; "cargo"]
           two_repos (with_slot "merge-cccc3333" demo_sys)).
  by vm_compute.
Defined.

(** *** The PRs a tick leaves alone *)

Lemma pr_at_put_ne (l : pulls) (i j : nat) (st : PullReqState) :
  i <> j -> pr_at (pr_put l i st) j = pr_at l j.
Proof. intros Hne. unfold pr_at, pr_put. by rewrite list_lookup_alter_ne. Qed.

Lemma calls_untouched (gh : Platform) (repo_cfgs : gmap string RepoCfg) (r : string)
    (l : pulls) (g : Sys) (l2 : pulls) (g2 : Sys) (f : flow) :
  calls gh repo_cfgs r l g l2 g2 f ->
  forall j s, pr_at l j = Some s -> ready s = false -> pr_at l2 j = Some s.
Proof.
  induction 1 as [| l g i st st0 st1 g1 o Hat Hready Hsame Hsb Hflow
                  | l g i st st0 st1 g1 l1 g1' f1 Hat Hready Hsame Hsb Hcalls IH];
    intros j s Hj Hs.
  - done.
  - rewrite pr_at_put_ne; [done|]. intros ->. congruence.
  - apply IH; [|done]. rewrite pr_at_put_ne; [done|]. intros ->. congruence.
Qed.

(** X6: a tick only touches PRs that are ready to build.  A PR that is
    neither idle and approved, nor idle and marked for a try, nor a
    successful try that is approved, comes out of [process_queue] exactly as
    it went in: a pending, failed or errored PR, and an idle PR without
    approval or try flag, are never passed to [start_build] and never
    changed. *)
Theorem process_queue_touches_only_ready (gh : Platform)
    (repo_cfgs : gmap string RepoCfg) (repos : list string)
    (states : gmap string pulls) (g : Sys)
    (r : string) (l : pulls) (j : nat) (s : PullReqState) :
  states !! r = Some l -> pr_at l j = Some s -> ready s = false ->
  exists l',
    fst (fst (process_queue gh repo_cfgs repos states g)) !! r = Some l'
    /\ pr_at l' j = Some s.
Proof.
  revert states g l. induction repos as [|r0 repos IH]; intros states g l Hl Hj Hs; simpl.
  { by exists l. }
  destruct (states !! r0) as [l0|] eqn:Hl0; [|by exists l].
  pose proof (process_repo_calls gh repo_cfgs r0 l0 g) as Hcalls.
  destruct (process_repo gh repo_cfgs r0 l0 g) as [[l1 g1] f]. simpl in Hcalls.
  assert (exists l', <[r0:=l1]> states !! r = Some l' /\ pr_at l' j = Some s)
    as (l' & Hl' & Hj').
  { destruct (decide (r = r0)) as [->|Hne].
    - rewrite lookup_insert_eq. exists l1. split; [done|].
      rewrite Hl0 in Hl. injection Hl as ->. by eapply calls_untouched.
    - rewrite lookup_insert_ne by done. by exists l. }
  destruct f as [| |e]; simpl; [|by exists l'|by exists l'].
  by eapply IH.
Qed.

Lemma process_queue_touches_only_ready_witness :
  exists l',
    fst (fst (process_queue demo_platform travis_cfgs ["rust"]
                {[ "rust" := [(1%Z, demo_pr "rust" 1); (2%Z, demo_approved "rust" 2)] ]}
                demo_sys)) !! "rust" = Some l'
    /\ pr_at l' 0 = Some (demo_pr "rust" 1).
Proof.
  apply (process_queue_touches_only_ready demo_platform travis_cfgs ["rust"]
           {[ "rust" := [(1%Z, demo_pr "rust" 1); (2%Z, demo_approved "rust" 2)] ]}
           demo_sys "rust" [(1%Z, demo_pr "rust" 1); (2%Z, demo_approved "rust" 2)]
           0 (demo_pr "rust" 1)); by vm_compute.
Defined.

(** ** The order of the walk *)

Lemma list_lt_antisym (a b : list Z) :
  list_lt a b = false -> list_lt b a = false -> a = b.
Proof.
  revert b. induction a as [|x a IH]; intros [|y b]; simpl; try done.
  destruct (Z.ltb_spec x y), (Z.ltb_spec y x); try done; try lia.
  intros Hab Hba. assert (x = y) as -> by lia. f_equal. by apply IH.
Qed.

Lemma insort_fmap {A B} (f : A -> B) (ltb : B -> B -> bool) (x : A) (l : list A) :
  f <$> insort (fun a b => ltb (f a) (f b)) x l = insort ltb (f x) (f <$> l).
Proof.
  induction l as [|y l IH]; [done|].
  rewrite fmap_cons. cbn [insort].
  destruct (ltb (f x) (f y)); [done|]. rewrite fmap_cons. by rewrite IH.
Qed.

Lemma sorted_fmap {A B} (f : A -> B) (ltb : B -> B -> bool) (l : list A) :
  f <$> sorted (fun a b => ltb (f a) (f b)) l = sorted ltb (f <$> l).
Proof.
  unfold sorted.
  assert (forall acc, f <$> foldl (fun a x => insort (fun a b => ltb (f a) (f b)) x a) acc l
                      = foldl (fun a x => insort ltb x a) (f <$> acc) (f <$> l)) as H.
  { induction l as [|x l IH]; intros acc; [done|].
    change (f <$> foldl (fun a x => insort (fun a b => ltb (f a) (f b)) x a)
                    (insort (fun a b => ltb (f a) (f b)) x acc) l
            = foldl (fun a x => insort ltb x a) (insort ltb (f x) (f <$> acc)) (f <$> l)).
    by rewrite IH, insort_fmap. }
  apply (H []).
Qed.

Lemma num_inj_on (l : list PullReqState) (x y : PullReqState) :
  NoDup (num <$> l) -> x ∈ l -> y ∈ l -> num x = num y -> x = y.
Proof.
  induction l as [|z l IH]; simpl; [by intros _ []%elem_of_nil|].
  rewrite NoDup_cons. intros [Hz Hnd] Hx Hy Hnum.
  apply elem_of_cons in Hx as [->|Hx]; apply elem_of_cons in Hy as [->|Hy]; try done.
  - exfalso. apply Hz. rewrite Hnum. by apply list_elem_of_fmap_2.
  - exfalso. apply Hz. rewrite <- Hnum. by apply list_elem_of_fmap_2.
  - by apply IH.
Qed.

Lemma snd_tagged (l : pulls) :
  snd <$> imap (fun i p => (i, snd p)) l = snd <$> l.
Proof. rewrite fmap_imap. apply (imap_const snd). Qed.

(** The PRs are visited in the order of [sorted] on the PR objects. *)
Lemma visit_order_sorted (l : pulls) : visit_order l = sorted lt (snd <$> l).
Proof.
  unfold visit_order, repo_states.
  set (ltb := fun a b : nat * PullReqState => lt (snd a) (snd b)).
  set (tagged := imap (fun i p => (i, snd p)) l).
  destruct (sorted_spec ltb (fun x y => list_lt_asym _ _) tagged) as [Hperm _].
  assert (forall ks : list (nat * PullReqState),
             (forall i st, (i, st) ∈ ks -> pr_at l i = Some st) ->
             omap (pr_at l) (fst <$> ks) = snd <$> ks) as Hvisit.
  { induction ks as [|[i st] ks IH]; intros Hat; simpl; [done|].
    rewrite (Hat i st) by by left. simpl. f_equal. apply IH.
    intros j s Hin. apply Hat. by right. }
  rewrite Hvisit.
  - subst ltb tagged. rewrite (sorted_fmap snd lt). f_equal. apply snd_tagged.
  - intros i st Hin. rewrite Hperm in Hin. unfold tagged in Hin.
    apply list_elem_of_lookup in Hin as [j Hj].
    rewrite list_lookup_imap in Hj. unfold pr_at.
    destruct (l !! j) as [[k st']|] eqn:Hlj; simplify_eq/=. by rewrite Hlj.
Qed.

(** X7: the order of the walk does not depend on the order of the
    dictionary.  [process_queue] visits the PRs of a repository in the order
    of [sorted] on the PR objects, and two dictionaries that hold the same
    entries in different orders, the PRs having distinct numbers, are
    visited in the same order. *)
Theorem visit_order_canonical (l1 l2 : pulls) :
  l1 ≡ₚ l2 -> NoDup (num <$> (snd <$> l1)) ->
  visit_order l1 = sorted lt (snd <$> l1)
  /\ visit_order l1 = visit_order l2.
Proof.
  intros Hperm Hnd. split; [apply visit_order_sorted|].
  rewrite !visit_order_sorted.
  assert (snd <$> l1 ≡ₚ snd <$> l2) as Hp by by rewrite Hperm.
  destruct (sorted_spec lt (fun x y => list_lt_asym _ _) (snd <$> l1)) as [Hp1 Hs1].
  destruct (sorted_spec lt (fun x y => list_lt_asym _ _) (snd <$> l2)) as [Hp2 Hs2].
  apply (sorting.StronglySorted_unique_strong (key_le lt)).
  - intros x1 x2 Hx1 Hx2 H12 H21. unfold key_le, lt in H12, H21.
    rewrite Hp1 in Hx1. rewrite Hp2, <- Hp in Hx2.
    apply (num_inj_on (snd <$> l1)); [done|done|done|].
    pose proof (list_lt_antisym _ _ H21 H12) as Hkey.
    unfold sort_key in Hkey. by simplify_eq.
  - apply Sorted_StronglySorted; [|done].
    intros x y z. unfold key_le, lt. apply list_le_trans.
  - apply Sorted_StronglySorted; [|done].
    intros x y z. unfold key_le, lt. apply list_le_trans.
  - by rewrite Hp1, Hp2.
Qed.

Lemma visit_order_canonical_witness :
  visit_order [(1%Z, demo_pr "rust" 1); (2%Z, demo_approved "rust" 2)]
  = visit_order [(2%Z, demo_approved "rust" 2); (1%Z, demo_pr "rust" 1)].
Proof.
  apply (visit_order_canonical [(1%Z, demo_pr "rust" 1); (2%Z, demo_approved "rust" 2)]
           [(2%Z, demo_approved "rust" 2); (1%Z, demo_pr "rust" 1)]).
  - apply perm_swap.
  - compute_done.
Defined.

(** ** Start-up: the table and the open PRs *)









(** ** A started build and the next start-up *)

Lemma filter_filter_negb {A} (p : A -> bool) (l : list A) :
  List.filter p (List.filter (fun x => negb (p x)) l) = [].
Proof.
  induction l as [|x l IH]; simpl; [done|].
  destruct (p x) eqn:Hp; simpl; [done|]. by rewrite Hp.
Qed.

Lemma filter_after_replace (r : string) (n : Z) (s : string) (d : list Row) :
  List.filter (row_is r n) (db_replace_status r n s d) = [mkRow r n s None].
Proof.
  unfold db_replace_status. rewrite List.filter_app, filter_filter_negb. simpl.
  by rewrite row_is_refl.
Qed.

Lemma filter_update_after_replace (m r : string) (n : Z) (s : string) (d : list Row) :
  List.filter (row_is r n) (db_update_merge_sha m r n (db_replace_status r n s d))
  = [mkRow r n s (Some m)].
Proof.
  unfold db_update_merge_sha, db_replace_status.
  rewrite List.map_app, List.filter_app. simpl. rewrite row_is_refl. simpl.
  assert (List.filter (row_is r n)
            (List.map (fun x => if row_is r n x
                                then mkRow (row_repo x) (row_num x) (row_status x) (Some m)
                                else x)
               (List.filter (fun x => negb (row_is r n x)) d)) = []) as ->.
  { induction d as [|x d IH]; simpl; [done|].
    destruct (row_is r n x) eqn:Hx; simpl; [done|]. by rewrite Hx, Hx. }
  by rewrite row_is_refl.
Qed.

(** What a started build leaves behind. *)
Lemma start_build_started (gh : Platform) (repo_cfgs : gmap string RepoCfg)
    (r : string) (st : PullReqState) (g : Sys) :
  slot g = "" -> repo st = r ->
  snd (start_build gh repo_cfgs r st g) = Ret true ->
  let st' := fst (fst (start_build gh repo_cfgs r st g)) in
  let g' := snd (fst (start_build gh repo_cfgs r st g)) in
  exists cfg,
    repo_cfgs !! r = Some cfg
    /\ status st' = "pending" /\ try_ st' = try_ st
    /\ build_res st'
       = pending_results
           match travis_token cfg with
           | Some _ => ["travis"]
           | None => if try_ st then try_builders cfg else builders cfg
           end
    /\ List.filter (row_is r (num st)) (db g')
       = [mkRow r (num st) "pending"
            (if try_ st then None else Some (merge_sha st'))].
Proof.
  intros Hslot <-. unfold start_build. apply truthy_false in Hslot. rewrite Hslot.
  destruct (negb (String.eqb (head_sha st) _)); [done|].
  destruct (repo_cfgs !! repo st) as [cfg|]; [|done].
  set (g1 := if set_ref_ok gh _ _ _ _ then _ else _).
  destruct (merge gh _ _ _ _ _) as [sha|code].
  - destruct (travis_token cfg) as [tok|] eqn:Htok;
      (destruct (negb (set_ref_ok gh _ _ _ _)); [done|]);
      intros _; exists cfg;
      destruct st as [n p ro ti bo hr br asg hs ab sts ms brs [|] mg rp [|]];
      simpl; rewrite ?Htok; split_and!; try done;
      first [apply filter_after_replace | apply filter_update_after_replace].
  - destruct (negb (code =? 409)%Z); [done|].
    destruct st as [n p ro ti bo hr br asg hs ab sts ms brs tr mg rp [|]]; done.
Qed.

(** X9: what a restart remembers of a started build.  When [start_build]
    starts a build it leaves exactly one row for the PR in the table, with
    status [pending]; the row holds the merge commit for a gated build and
    no merge commit for a try build.  Hence the recovery scan of the next
    start-up, applied to the PR as loaded from that row, restores a gated
    build (pending, same merge commit, same pending build results), but
    downgrades a try build to the idle status: the try build is forgotten. *)
Theorem start_build_survives_restart (gh : Platform) (repo_cfgs : gmap string RepoCfg)
    (r : string) (st st0 : PullReqState) (g : Sys) :
  slot g = "" -> repo st = r ->
  snd (start_build gh repo_cfgs r st g) = Ret true ->
  status st0 = "pending" ->
  let st' := fst (fst (start_build gh repo_cfgs r st g)) in
  let g' := snd (fst (start_build gh repo_cfgs r st g)) in
  exists x,
    List.filter (row_is r (num st)) (db g') = [x]
    /\ row_status x = "pending"
    /\ forall l, dict_get (num st) l = Some st0 ->
         exists st2,
           pr_of (fst (fst (recover_row repo_cfgs ({[ r := l ]}, g', None) x)))
             r (num st) = Some st2
           /\ if try_ st then status st2 = ""
              else merge_sha st' <> "" ->
                   status st2 = "pending" /\ merge_sha st2 = merge_sha st'
                   /\ build_res st2 = build_res st'.
Proof.
  intros Hslot Hrepo Hstart Hpending.
  destruct (start_build_started gh repo_cfgs r st g Hslot Hrepo Hstart)
    as (cfg & Hcfg & Hst & Htry & Hres & Hfind).
  cbn zeta in *.
  set (st' := fst (fst (start_build gh repo_cfgs r st g))) in *.
  set (g' := snd (fst (start_build gh repo_cfgs r st g))) in *.
  set (x := mkRow r (num st) "pending" (if try_ st then None else Some (merge_sha st'))) in *.
  exists x. split_and!; [done|done|].
  intros l Hl.
  {
    destruct (recover_row_spec repo_cfgs {[ r := l ]} g' x) as (s1 & g1 & Heq & _ & Hown & _).
    { intros r' Hr'. destruct (decide (r' = r)) as [->|Hne]; [by rewrite Hcfg|].
      rewrite lookup_singleton_ne in Hr' by done. by apply is_Some_None in Hr'. }
    rewrite Heq. cbn [fst snd]. subst x. cbn [row_repo row_num] in Hown.
    rewrite Hown. unfold pr_of. rewrite lookup_singleton_eq. simpl. rewrite Hl. simpl.
    eexists. split; [done|]. unfold recovered. cbn [row_merge_sha row_repo].
    destruct (try_ st) eqn:Ht; simpl.
    + by rewrite Hpending.
    + intros Hne. apply truthy_true in Hne. rewrite Hne, Hcfg. simpl.
      split_and!; [done|done|]. rewrite Hres. unfold gated_builders.
      by destruct (travis_token cfg). }
Qed.

Lemma start_build_survives_restart_witness :
  exists x,
    List.filter (row_is "rust" 1)
      (db (snd (fst (start_build demo_platform buildbot_cfgs "rust"
                       (demo_approved "rust" 1) demo_sys)))) = [x]
    /\ row_status x = "pending".
Proof.
  destruct (start_build_survives_restart demo_platform buildbot_cfgs "rust"
              (demo_approved "rust" 1) (set_raw_status "pending" (demo_pr "rust" 1))
              demo_sys) as (x & Hx & Hs & _); [by vm_compute..|].
  by exists x.
Defined.

(** ** [fetch_mergeability] *)

Lemma same_but_mergeable_trans (a b c : PullReqState) :
  same_but_mergeable a b -> same_but_mergeable b c -> same_but_mergeable a c.
Proof.
  intros [-> | [Ha [m ->]]] [-> | [Hb [m' ->]]].
  - by left.
  - right. eauto.
  - right. eauto.
  - right. split; [done|]. by exists m'.
Qed.

Lemma pulls_same_but_mergeable_refl (l : pulls) : pulls_same_but_mergeable l l.
Proof.
  apply Forall2_same_length_lookup_2; [done|].
  intros i p q Hp Hq. simplify_eq. split; [done|by left].
Qed.

Lemma pulls_same_but_mergeable_trans (l1 l2 l3 : pulls) :
  pulls_same_but_mergeable l1 l2 -> pulls_same_but_mergeable l2 l3 ->
  pulls_same_but_mergeable l1 l3.
Proof.
  unfold pulls_same_but_mergeable. intros H12 H23.
  eapply Forall2_trans; [|exact H12|exact H23].
  intros p q s [Hk1 Hs1] [Hk2 Hs2].
  split; [congruence|by eapply same_but_mergeable_trans].
Qed.

Lemma fetch_pulls_spec (ask : string -> Z -> option (option bool)) (r : string)
    (l : pulls) :
  pulls_same_but_mergeable l (fst (fetch_pulls ask r l))
  /\ (snd (fetch_pulls ask r l) = false ->
      Forall (fun p => mergeable (snd p) = None -> ask r (num (snd p)) = Some None)
        (fst (fetch_pulls ask r l))).
Proof.
  induction l as [|[k st] l [IH1 IH2]]; simpl.
  { split; [constructor|by constructor]. }
  destruct (mergeable st) as [m|] eqn:Hm.
  - destruct (fetch_pulls ask r l) as [l' raised]. simpl in *. split.
    + constructor; [|done]. split; [done|by left].
    + intros Hr. constructor; [|by apply IH2]. simpl. by rewrite Hm.
  - destruct (ask r (num st)) as [m|] eqn:Hask.
    + destruct (fetch_pulls ask r l) as [l' raised]. simpl in *. split.
      * constructor; [|done]. split; [done|]. right. eauto.
      * intros Hr. constructor; [|by apply IH2]. simpl. by intros ->.
    + simpl. split; [apply pulls_same_but_mergeable_refl|done].
Qed.

Lemma fetch_round_other (ask : string -> Z -> option (option bool))
    (repos : list string) (states : gmap string pulls) (r : string) :
  r ∉ repos -> fst (fetch_round ask repos states) !! r = states !! r.
Proof.
  revert states. induction repos as [|r0 repos IH]; intros states Hr; simpl; [done|].
  apply not_elem_of_cons in Hr as [Hne Hr].
  destruct (states !! r0) as [l0|]; [|done].
  destruct (fetch_pulls ask r0 l0) as [l1 [|]]; simpl.
  - by rewrite lookup_insert_ne.
  - rewrite IH by done. by rewrite lookup_insert_ne.
Qed.

(** One round: what changes, and what a round without exception has
    asked. *)
Lemma fetch_round_spec (ask : string -> Z -> option (option bool))
    (repos : list string) (states : gmap string pulls) :
  (forall r, option_Forall2 pulls_same_but_mergeable
               (states !! r) (fst (fetch_round ask repos states) !! r))
  /\ (snd (fetch_round ask repos states) = false ->
      forall r l', r ∈ repos -> fst (fetch_round ask repos states) !! r = Some l' ->
        Forall (fun p => mergeable (snd p) = None -> ask r (num (snd p)) = Some None) l').
Proof.
  revert states. induction repos as [|r0 repos IH]; intros states; simpl.
  { split.
    - intros r. destruct (states !! r); constructor. apply pulls_same_but_mergeable_refl.
    - intros _ r l' Hr. by apply elem_of_nil in Hr. }
  destruct (states !! r0) as [l0|] eqn:Hl0; simpl.
  2:{ split; [|done]. intros r. destruct (states !! r); constructor.
      apply pulls_same_but_mergeable_refl. }
  destruct (fetch_pulls_spec ask r0 l0) as [Hsame Hasked].
  destruct (fetch_pulls ask r0 l0) as [l1 raised]. simpl in Hsame, Hasked.
  assert (forall r, option_Forall2 pulls_same_but_mergeable (states !! r)
                      (<[r0:=l1]> states !! r)) as Hstep.
  { intros r. destruct (decide (r = r0)) as [->|Hne].
    - rewrite lookup_insert_eq, Hl0. by constructor.
    - rewrite lookup_insert_ne by done. destruct (states !! r); constructor.
      apply pulls_same_but_mergeable_refl. }
  destruct raised; simpl; [by split|].
  destruct (IH (<[r0:=l1]> states)) as [IH1 IH2]. split.
  - intros r. specialize (Hstep r). specialize (IH1 r).
    destruct Hstep as [a b Hab|]; inversion IH1; simplify_eq; constructor.
    by eapply pulls_same_but_mergeable_trans.
  - intros Hok r l' Hr Hl'. destruct (decide (r ∈ repos)) as [Hin|Hnin].
    { by eapply IH2. }
    apply elem_of_cons in Hr as [->|Hr]; [|done].
    rewrite fetch_round_other, lookup_insert_eq in Hl' by done.
    injection Hl' as <-. by apply Hasked.
Qed.

(** PR 1 is asked about and found unmergeable; PR 2, known to merge, is
    not asked about. *)
Example fetch_round_demo :
  let ask := fun (r : string) (n : Z) => Some (Some false) in
  let known := set_mergeable (Some true) (demo_pr "rust" 2) in
  fetch_round ask ["rust"] {[ "rust" := [(1%Z, demo_pr "rust" 1); (2%Z, known)] ]}
  = ({[ "rust" := [(1%Z, set_mergeable (Some false) (demo_pr "rust" 1)); (2%Z, known)] ]},
     false).
Proof. by vm_compute. Qed.

(** X10: [fetch_mergeability] only fills in unknown mergeability.  After
    any number of rounds, whatever GitHub answers in each, every repository
    keeps its PRs under the same numbers and each PR is exactly as before,
    except that a PR whose mergeability was unknown may have got one: a
    known mergeability is never asked for again nor overwritten, and nothing
    else is touched, also when exceptions end rounds early.  After a round
    without exception, the PRs of the visited repositories whose
    mergeability is still unknown are those for which GitHub itself answered
    that it does not know yet. *)
Theorem fetch_mergeability_fills_unknown (repos : list string)
    (states : gmap string pulls) :
  (forall (asks : nat -> string -> Z -> option (option bool)) (n : nat) (r : string),
      option_Forall2 pulls_same_but_mergeable
        (states !! r) (fetch_mergeability asks n repos states !! r))
  /\ (forall ask : string -> Z -> option (option bool),
         snd (fetch_round ask repos states) = false ->
         forall r l', r ∈ repos -> fst (fetch_round ask repos states) !! r = Some l' ->
           Forall (fun p => mergeable (snd p) = None -> ask r (num (snd p)) = Some None)
             l').
Proof.
  split; [|intros ask; apply fetch_round_spec].
  intros asks n r. revert asks states. induction n as [|n IH]; intros asks states; simpl.
  { destruct (states !! r); constructor. apply pulls_same_but_mergeable_refl. }
  destruct (fetch_round_spec (asks O) repos states) as [Hround _].
  specialize (Hround r).
  specialize (IH (fun k => asks (S k)) (fst (fetch_round (asks O) repos states))).
  destruct Hround as [a b Hab|]; inversion IH; simplify_eq; constructor.
  by eapply pulls_same_but_mergeable_trans.
Qed.

(** ** One build at a time with Buildbot *)





















(** ** A gated build in flight *)

(** A pending PR that is no try build stands before every idle PR. *)
Lemma gated_pending_before_idle (p s : PullReqState) :
  gated_pending p = true -> status s = "" -> lt p s = true.
Proof.
  unfold gated_pending, lt, sort_key, get_status.
  intros [Hp%String.eqb_eq _]%andb_true_iff Hs. rewrite Hp, Hs. simpl.
  by destruct (truthy (approved_by s) && negb (bool_decide (mergeable s = Some false))).
Qed.

Lemma gated_pass_blocked (gh : Platform) (repo_cfgs : gmap string RepoCfg) (r : string)
    (ip : nat) (p : PullReqState) (pre post : list nat) :
  forall (l : pulls) (g : Sys),
    pr_at l ip = Some p -> gated_pending p = true ->
    ip ∉ pre -> NoDup pre ->
    (forall j s, j ∈ pre -> pr_at l j = Some s -> status s <> "") ->
    forall j q, pr_at l j = Some q -> status q = "" ->
                pr_at (fst (fst (gated_pass gh repo_cfgs r (pre ++ ip :: post) l g))) j
                = Some q.
Proof.
  induction pre as [|i pre IH]; intros l g Hp Hgated Hnin Hnd Hbusy j q Hj Hq; simpl.
  { rewrite Hp. unfold gated_pending in Hgated. by rewrite Hgated. }
  apply not_elem_of_cons in Hnin as [Hne Hnin]. apply NoDup_cons in Hnd as [Hi Hnd].
  destruct (pr_at l i) as [st|] eqn:Hat.
  2:{ apply IH; try done. intros j' s Hj'. apply Hbusy. by right. }
  assert (status st <> "") as Hst by (apply (Hbusy i); [by left|done]).
  assert (j <> i) as Hji by (intros ->; congruence).
  destruct (String.eqb (status st) "pending" && negb (try_ st)); [done|].
  destruct (String.eqb_spec (status st) ""); [done|]. simpl.
  assert (forall st1 g1,
             pr_at (fst (fst (gated_pass gh repo_cfgs r (pre ++ ip :: post)
                                (pr_put l i st1) g1))) j = Some q) as Hrest.
  { intros st1 g1. apply IH; try done.
    - by rewrite pr_at_put_ne.
    - intros j' s Hj' Hs. rewrite pr_at_put_ne in Hs by (intros ->; done).
      apply (Hbusy j'); [by right|done].
    - by rewrite pr_at_put_ne. }
  destruct (String.eqb (status st) "success" && try_ st && truthy (approved_by st)).
  - destruct (start_build gh repo_cfgs r (set_try false st) g) as [[st1 g1] o].
    destruct (flow_of o); simpl; [apply Hrest|by rewrite pr_at_put_ne..].
  - apply IH; try done. intros j' s Hj'. apply Hbusy. by right.
Qed.

Lemma try_pass_skips (gh : Platform) (repo_cfgs : gmap string RepoCfg) (r : string)
    (refs : list nat) (l : pulls) (g : Sys) (j : nat) (q : PullReqState) :
  pr_at l j = Some q -> try_ q = false ->
  pr_at (fst (fst (try_pass gh repo_cfgs r refs l g))) j = Some q.
Proof.
  revert l g. induction refs as [|i refs IH]; intros l g Hj Hq; simpl; [done|].
  destruct (pr_at l i) as [st|] eqn:Hat; [|by apply IH].
  destruct (String.eqb (status st) "" && try_ st) eqn:Hc; [|by apply IH].
  assert (j <> i) as Hji.
  { intros ->. apply andb_true_iff in Hc as [_ Hc]. congruence. }
  destruct (start_build gh repo_cfgs r st g) as [[st1 g1] o].
  destruct (flow_of o); simpl; [|by rewrite pr_at_put_ne..].
  apply IH; [|done]. by rewrite pr_at_put_ne.
Qed.

(** X12: a gated build in flight blocks the idle PRs of its repository.
    When some PR of a repository is pending and is no try build, the walk of
    [process_queue] over that repository leaves every PR with status [""]
    and without try flag exactly as it was, approved or not: the pending PR
    sorts before them and the first loop breaks when it reaches it.  (Try
    builds, and approved PRs whose try build succeeded, may still be
    started.) *)
Theorem gated_pending_blocks_idle (gh : Platform) (repo_cfgs : gmap string RepoCfg)
    (r : string) (l : pulls) (g : Sys) (ip : nat) (p : PullReqState)
    (j : nat) (q : PullReqState) :
  pr_at l ip = Some p -> gated_pending p = true ->
  pr_at l j = Some q -> status q = "" -> try_ q = false ->
  pr_at (fst (fst (process_repo gh repo_cfgs r l g))) j = Some q.
Proof.
  intros Hp Hgated Hj Hq Htry.
  destruct (repo_states_sorted l) as (Hperm & keyed & Hrefs & Hat & Hsorted).
  assert (ip ∈ repo_states l) as Hin.
  { rewrite Hperm. apply elem_of_seq. split; [lia|]. simpl.
    unfold pr_at in Hp. destruct (l !! ip) eqn:Hl; [|done]. by eapply lookup_lt_Some. }
  assert (NoDup (repo_states l)) as Hnd by (rewrite Hperm; apply NoDup_seq).
  apply list_elem_of_split in Hin as (pre & post & Hsplit).
  rewrite Hsplit in Hnd. apply NoDup_app in Hnd as (Hndpre & Hdisj & _).
  assert (forall i s, i ∈ pre -> pr_at l i = Some s -> status s <> "") as Hbusy.
  { intros i s Hi Hs Hidle. rewrite Hsplit in Hrefs. symmetry in Hrefs.
    apply fmap_app_inv in Hrefs as (kpre & krest & -> & Hrest & ->).
    symmetry in Hrest.
    apply fmap_cons_inv in Hrest as ([ip' p'] & kpost & Hip & _ & ->). simpl in Hip.
    subst ip'.
    apply list_elem_of_fmap in Hi as ([i' s'] & -> & Hi). simpl in Hs.
    rewrite (Hat i' s') in Hs by (apply elem_of_app; by left). injection Hs as ->.
    rewrite (Hat ip p') in Hp by (apply elem_of_app; right; by left). injection Hp as ->.
    rewrite fmap_app, fmap_cons in Hsorted. simpl in Hsorted.
    pose proof (sorting.StronglySorted_app_1_elem_of _ _ _ s p Hsorted) as Hle.
    unfold key_le in Hle. rewrite (gated_pending_before_idle p s) in Hle by done.
    assert (true = false) by (apply Hle; [by apply (list_elem_of_fmap_2 snd) in Hi
                                         |by left]).
    done. }
  unfold process_repo. rewrite Hsplit.
  pose proof (gated_pass_blocked gh repo_cfgs r ip p pre post l g Hp Hgated) as Hpass.
  specialize (Hpass (fun H => Hdisj ip H ltac:(by left)) Hndpre Hbusy j q Hj Hq).
  destruct (gated_pass gh repo_cfgs r (pre ++ ip :: post) l g) as [[l1 g1] f].
  simpl in Hpass. destruct f; [|done|done].
  by apply try_pass_skips.
Qed.

Lemma gated_pending_blocks_idle_witness :
  pr_at (fst (fst (process_repo demo_platform travis_cfgs "rust"
                     [(1%Z, set_raw_status "pending" (demo_approved "rust" 1));
                      (2%Z, demo_approved "rust" 2)] demo_sys))) 1
  = Some (demo_approved "rust" 2).
Proof.
  apply (gated_pending_blocks_idle demo_platform travis_cfgs "rust" _ demo_sys 0
           (set_raw_status "pending" (demo_approved "rust" 1))); by vm_compute.
Defined.

(** ** The commit an approval is checked against *)

Lemma findall_nonspace_nonempty (s : string) :
  Forall (fun w => w <> "") (findall_nonspace s).
Proof.
  induction s as [|c s IH]; simpl; [constructor|].
  destruct (is_space c); [done|].
  destruct s as [|c' s']; [by repeat constructor|].
  destruct (is_space c'); [by constructor|].
  destruct (findall_nonspace (String c' s')) as [|w ws]; [by repeat constructor|].
  inversion IH; subst. by constructor.
Qed.

Lemma command_approval_sha (gh : Platform) (username : string) (cfg : RepoCfg)
    (realtime : bool) (word : string) (next : option string) (sha : string)
    (st : PullReqState) (g : Sys) :
  let r := command gh username cfg realtime word next sha st g in
  let sha1 := fst (fst (fst r)) in
  let st1 := snd (fst (fst r)) in
  head_sha st1 = head_sha st
  /\ sha1 = (if is_approval word
             then if truthy sha then sha else default "" next
             else sha)
  /\ (approved_by st1 = approved_by st
      \/ approved_by st1 = ""
      \/ (is_approval word = true /\ sha_cmp sha1 (head_sha st) = true)).
Proof.
  unfold command, is_approval.
  destruct (String.eqb word "r+" || startswith word "r=").
  { assert (match next with
            | Some w => if negb (truthy sha) then w else sha
            | None => sha
            end = if truthy sha then sha else default "" next) as Hsha.
    { destruct next as [w|]; destruct (truthy sha) eqn:Ht; simpl; try done.
      by apply truthy_false in Ht. }
    destruct (sha_cmp _ _) eqn:Hcmp; [|destruct realtime];
      unfold add_comment; cbn [fst snd head_sha approved_by set_approved_by];
      (split; [done|split; [exact Hsha|]]); [|by left|by left].
    right. right. done. }
  generalize (String.eqb word "r-"). intros [|].
  { simpl. split_and!; [done|done|by right; left]. }
  generalize (startswith word "p="). intros [|].
  { destruct (py_int _); simpl; split_and!; done || by left. }
  generalize (String.eqb word "retry" && realtime). intros [|].
  { simpl. split_and!; done || by left. }
  generalize (list_in word ["try"; "try-"] && realtime). intros [|].
  { simpl. split_and!; done || by left. }
  generalize (list_in word ["rollup"; "rollup-"]). intros [|].
  { simpl. split_and!; done || by left. }
  generalize (String.eqb word "force" && realtime). intros [|].
  { unfold force_build. destruct (truthy (buildbot_error _)); simpl;
      split_and!; done || by left. }
  simpl. split_and!; done || by left.
Qed.

Lemma commands_approval_sha (gh : Platform) (username : string) (cfg : RepoCfg)
    (realtime : bool) (words : list string) (sha : string)
    (st : PullReqState) (g : Sys) (ch : bool) :
  Forall (fun w => w <> "") words ->
  let st' := snd (fst (commands gh username cfg realtime words sha st g ch)) in
  head_sha st' = head_sha st
  /\ (approved_by st' = approved_by st
      \/ approved_by st' = ""
      \/ sha_cmp (approval_sha sha words) (head_sha st) = true).
Proof.
  revert sha st g ch. induction words as [|w ws IH]; intros sha st g ch Hwords; simpl.
  { split; [done|by left]. }
  apply Forall_cons in Hwords as [Hw Hws].
  pose proof (command_approval_sha gh username cfg realtime w (head ws) sha st g)
    as (Hhead & Hsha & Happ).
  destruct (command gh _ _ _ _ _ _ _ _) as [[[sha1 st1] g1] f]. simpl in Hhead, Hsha, Happ.
  destruct (IH sha1 st1 g1 (ch || f) Hws) as (Hhead' & Happ').
  split; [congruence|].
  assert (approval_sha sha (w :: ws) = if is_approval w then sha1 else approval_sha sha ws)
    as Hwhole.
  { unfold approval_sha. simpl. rewrite Hsha.
    destruct (is_approval w); [|done]. by destruct (truthy sha). }
  assert (is_approval w = true -> approval_sha sha1 ws = sha1) as Hfixed.
  { intros Hyes. rewrite Hyes in Hsha. unfold approval_sha.
    destruct (truthy sha1) eqn:Ht; [done|]. apply truthy_false in Ht.
    destruct ws as [|w' ws']; [done|]. exfalso. simpl in Hsha.
    apply Forall_cons in Hws as [Hw' _].
    destruct (truthy sha) eqn:Ht'; [|congruence].
    apply truthy_true in Ht'. congruence. }
  destruct Happ' as [Hsame|[Hempty|Hcmp]].
  - rewrite Hsame. destruct Happ as [?|[?|[Hyes Hcmp]]]; [by left|by right; left|].
    right. right. by rewrite Hwhole, Hyes.
  - by right; left.
  - rewrite Hhead in Hcmp. rewrite Hwhole. right. right.
    destruct (is_approval w) eqn:Hyes.
    + by rewrite <- (Hfixed eq_refl).
    + by rewrite Hsha in Hcmp.
Qed.

(** X13: one commit per comment.  Every approval of a comment is checked
    against the same text: the [sha] argument when it is not empty, else the
    word that follows the first approving word ([r+] or [r=...]) of the
    comment, also for approving words further on.  Unless that text passes
    [sha_cmp] against the head commit, [parse_commands] leaves [approved_by]
    as it was or clears it. *)
Theorem approval_checks_one_sha (gh : Platform) (body username : string)
    (cfg : RepoCfg) (st : PullReqState) (my_username : string) (g : Sys)
    (realtime : bool) (sha : string) :
  let st' := snd (fst (parse_commands gh body username cfg st my_username g
                         realtime sha)) in
  approved_by st' = approved_by st
  \/ approved_by st' = ""
  \/ sha_cmp (approval_sha sha (findall_nonspace body)) (head_sha st) = true.
Proof.
  unfold parse_commands.
  destruct (negb (list_in username (reviewers cfg))); [by left|].
  destruct (negb (str_in _ body)); [by left|].
  apply commands_approval_sha, findall_nonspace_nonempty.
Qed.

(** The word after the first approving word is [r+], which is no commit:
    the comment approves nothing, although [aaaa1111] follows later. *)
Example approval_sha_demo :
  approval_sha "" (findall_nonspace "@homu r=alice r+ aaaa1111") = "r+"
  /\ approved_by
       (snd (fst (parse_commands demo_platform "@homu r=alice r+ aaaa1111" "bob"
                    (demo_cfg "rust" None) (demo_pr "rust" 1) "homu" demo_sys false "")))
     = ""
  /\ approved_by
       (snd (fst (parse_commands demo_platform "@homu r+ aaaa1111 r=alice" "bob"
                    (demo_cfg "rust" None) (demo_pr "rust" 1) "homu" demo_sys false "")))
     = "alice".
Proof. by vm_compute. Qed.

(** ** Start-up: pending PRs *)








